(** * qubesmgmt.app: management client of the Qubes daemon

    A shallow embedding of [qubesmgmt/app.py]: the collection of domains
    ([VMCollection]), the pool helpers of [QubesBase] and the two transports
    ([QubesLocal], [QubesRemote]), followed by the properties proved about
    them.

    Conventions.
    - a Python [str] is the list of its code points, a [bytes] value a list
      of [byte];
    - a Python [dict] is an association list in insertion order with
      pairwise distinct keys;
    - a method that can raise returns a [Result]; a method that reads or
      writes attributes of [self] is a function from the state of the
      application object to a [Result] and a new state. *)

From Stdlib Require Import List NArith ZArith Lia Bool.
From Stdlib.Strings Require Import String Ascii Byte.
From Stdlib Require Import Permutation Sorted.
Import ListNotations.

Local Open Scope N_scope.
Local Open Scope list_scope.

(** ** Python values *)

(** [str]: a sequence of Unicode code points. *)
Definition str := list N.

(** [bytes]. *)
Definition bytes := list byte.

(** The [str] literal written with the characters of [s] (all below 256). *)
Definition u (s : string) : str :=
  List.map N_of_ascii (list_ascii_of_string s).

(** The [bytes] literal written with the characters of [s]. *)
Definition b (s : string) : bytes := list_byte_of_string s.

Definition LF : N := 10.
Definition CR : N := 13.
Definition SPACE : N := 32.
Definition EQUALS : N := 61.
Definition PLUS : N := 43.

Fixpoint str_eqb (x y : str) : bool :=
  match x, y with
  | [], [] => true
  | c :: x', d :: y' => N.eqb c d && str_eqb x' y'
  | _, _ => false
  end.

(** [x < y] and [x <= y] on [str]: lexicographic on code points. *)
Fixpoint str_compare (x y : str) : comparison :=
  match x, y with
  | [], [] => Eq
  | [], _ :: _ => Lt
  | _ :: _, [] => Gt
  | c :: x', d :: y' =>
      match N.compare c d with
      | Eq => str_compare x' y'
      | r => r
      end
  end.

Definition str_leb (x y : str) : bool :=
  match str_compare x y with Gt => false | _ => true end.

(** ** Exceptions *)

Inductive exception : Type :=
| KeyError (key : str)
| ValueError
| UnicodeDecodeError
| UnicodeEncodeError
| AssertionError
| IOError
| OSError
| QubesException (message_format : str) (args : list str)
| OtherException (name : str) (args : list str).

(** [isinstance(e, ValueError)]: the Unicode errors derive from
    [ValueError]. *)
Definition is_ValueError (e : exception) : bool :=
  match e with
  | ValueError | UnicodeDecodeError | UnicodeEncodeError => true
  | _ => false
  end.

Inductive Result (A : Type) : Type :=
| Ok (a : A)
| Raise (e : exception).
Arguments Ok {A} a.
Arguments Raise {A} e.

Definition rbind {A B} (r : Result A) (k : A -> Result B) : Result B :=
  match r with
  | Ok a => k a
  | Raise e => Raise e
  end.

(** ** Codecs *)

(** [s.encode('ascii')] *)
Fixpoint encode_ascii (s : str) : Result bytes :=
  match s with
  | [] => Ok []
  | c :: s' =>
      if c <? 128 then
        match Byte.of_N c with
        | Some x => rbind (encode_ascii s') (fun r => Ok (x :: r))
        | None => Raise UnicodeEncodeError
        end
      else Raise UnicodeEncodeError
  end.

(** [data.decode('ascii')] *)
Fixpoint decode_ascii (data : bytes) : Result str :=
  match data with
  | [] => Ok []
  | x :: data' =>
      if Byte.to_N x <? 128 then
        rbind (decode_ascii data') (fun r => Ok (Byte.to_N x :: r))
      else Raise UnicodeDecodeError
  end.

Definition byte_of (n : N) : byte :=
  match Byte.of_N n with Some x => x | None => x00 end.

(** The UTF-8 encoding of one code point; [None] for a surrogate and for a
    number that is no code point. *)
Definition utf8_encode_char (c : N) : option bytes :=
  if c <? 128 then Some [byte_of c]
  else if c <? 2048 then
    Some [byte_of (192 + c / 64); byte_of (128 + c mod 64)]
  else if c <? 65536 then
    if (55296 <=? c) && (c <=? 57343) then None
    else Some [byte_of (224 + c / 4096); byte_of (128 + (c / 64) mod 64);
               byte_of (128 + c mod 64)]
  else if c <? 1114112 then
    Some [byte_of (240 + c / 262144); byte_of (128 + (c / 4096) mod 64);
          byte_of (128 + (c / 64) mod 64); byte_of (128 + c mod 64)]
  else None.

(** [s.encode('utf-8')] *)
Fixpoint encode_utf8 (s : str) : Result bytes :=
  match s with
  | [] => Ok []
  | c :: s' =>
      match utf8_encode_char c with
      | Some bs => rbind (encode_utf8 s') (fun r => Ok (bs ++ r))
      | None => Raise UnicodeEncodeError
      end
  end.

(** A continuation byte whose value lies in [lo, hi]. *)
Definition cont_in (lo hi : N) (x : byte) : option N :=
  let n := Byte.to_N x in
  if (lo <=? n) && (n <=? hi) then Some (n - 128) else None.

(** [data.decode()], that is strict UTF-8: shortest form only, no
    surrogate, nothing above U+10FFFF. *)
Fixpoint decode_utf8 (data : bytes) : Result str :=
  match data with
  | [] => Ok []
  | x0 :: rest =>
      let n0 := Byte.to_N x0 in
      if n0 <? 128 then rbind (decode_utf8 rest) (fun r => Ok (n0 :: r))
      else if (194 <=? n0) && (n0 <=? 223) then
        match rest with
        | x1 :: rest1 =>
            match cont_in 128 191 x1 with
            | Some c1 =>
                rbind (decode_utf8 rest1)
                      (fun r => Ok (((n0 - 192) * 64 + c1) :: r))
            | None => Raise UnicodeDecodeError
            end
        | _ => Raise UnicodeDecodeError
        end
      else if (224 <=? n0) && (n0 <=? 239) then
        match rest with
        | x1 :: x2 :: rest2 =>
            let lo := if n0 =? 224 then 160 else 128 in
            let hi := if n0 =? 237 then 159 else 191 in
            match cont_in lo hi x1, cont_in 128 191 x2 with
            | Some c1, Some c2 =>
                rbind (decode_utf8 rest2)
                      (fun r => Ok (((n0 - 224) * 4096 + c1 * 64 + c2) :: r))
            | _, _ => Raise UnicodeDecodeError
            end
        | _ => Raise UnicodeDecodeError
        end
      else if (240 <=? n0) && (n0 <=? 244) then
        match rest with
        | x1 :: x2 :: x3 :: rest3 =>
            let lo := if n0 =? 240 then 144 else 128 in
            let hi := if n0 =? 244 then 143 else 191 in
            match cont_in lo hi x1, cont_in 128 191 x2, cont_in 128 191 x3 with
            | Some c1, Some c2, Some c3 =>
                rbind (decode_utf8 rest3)
                      (fun r => Ok (((n0 - 240) * 262144 + c1 * 4096
                                     + c2 * 64 + c3) :: r))
            | _, _, _ => Raise UnicodeDecodeError
            end
        | _ => Raise UnicodeDecodeError
        end
      else Raise UnicodeDecodeError
  end.

(** ** Splitting *)

Section Split.
Context {A : Type}.

  (** [s.split(sep, maxsplit)] for a separator of one character;
      [maxsplit = None] is Python's default -1 (no limit). *)
Fixpoint split (is_sep : A -> bool) (maxsplit : option nat) (s : list A)
    : list (list A) :=
    match s with
    | [] => [[]]
    | c :: rest =>
        let cut := match maxsplit with Some 0%nat => false | _ => is_sep c end in
        if cut then
          [] :: split is_sep (option_map Nat.pred maxsplit) rest
        else
          match split is_sep maxsplit rest with
          | h :: t => (c :: h) :: t
          | [] => [[c]]
          end
    end.

  (** [s.splitlines()]: the lines of [s] without their terminators; a
      carriage return followed by a line feed is one terminator; no empty
      last line after a final terminator. *)
Fixpoint splitlines (is_break is_cr is_lf : A -> bool) (s : list A)
    : list (list A) :=
    match s with
    | [] => []
    | c :: rest =>
        if is_break c then
          [] :: match rest with
                | d :: rest' =>
                    if is_cr c && is_lf d
                    then splitlines is_break is_cr is_lf rest'
                    else splitlines is_break is_cr is_lf rest
                | [] => []
                end
        else
          match splitlines is_break is_cr is_lf rest with
          | h :: t => (c :: h) :: t
          | [] => [[c]]
          end
    end.
End Split.

Definition is_char (c : N) (d : N) : bool := N.eqb d c.

(** [str.split(sep, maxsplit)] *)
Definition str_split (sep : N) (maxsplit : option nat) (s : str) : list str :=
  split (is_char sep) maxsplit s.

(** Line boundaries of [bytes.splitlines]: line feed and carriage return. *)
Definition bytes_is_break (x : byte) : bool :=
  let n := Byte.to_N x in (n =? 10) || (n =? 13).

Definition bytes_splitlines (data : bytes) : list bytes :=
  splitlines bytes_is_break (fun x => Byte.to_N x =? 13)
             (fun x => Byte.to_N x =? 10) data.

(** Line boundaries of [str.splitlines]: line feed, vertical tab, form
    feed, carriage return, the file, group and record separators, next
    line, line separator and paragraph separator. *)
Definition str_is_break (c : N) : bool :=
  (c =? 10) || (c =? 11) || (c =? 12) || (c =? 13) || (c =? 28) || (c =? 29)
  || (c =? 30) || (c =? 133) || (c =? 8232) || (c =? 8233).

Definition str_splitlines (s : str) : list str :=
  splitlines str_is_break (is_char CR) (is_char LF) s.

(** [data.endswith(suffix)] for a suffix of one byte. *)
Fixpoint endswith1 (data : bytes) (x : byte) : bool :=
  match data with
  | [] => false
  | [y] => Byte.eqb y x
  | _ :: data' => endswith1 data' x
  end.

(** ** Dictionaries *)

(** A [dict] with [str] keys: the items in insertion order. *)
Definition dict (V : Type) : Type := list (str * V).

Section Dict.
Context {V : Type}.

(** [d.get(k)] *)
Fixpoint dict_get (d : dict V) (k : str) : option V :=
  match d with
  | [] => None
  | (k', v) :: d' => if str_eqb k' k then Some v else dict_get d' k
  end.

(** [k in d] *)
Definition dict_contains (k : str) (d : dict V) : bool :=
  match dict_get d k with Some _ => true | None => false end.

(** [d[k] = v]: an existing key keeps its position, a new key goes last. *)
Fixpoint dict_set (k : str) (v : V) (d : dict V) : dict V :=
  match d with
  | [] => [(k, v)]
  | (k', v') :: d' =>
      if str_eqb k' k then (k', v) :: d' else (k', v') :: dict_set k v d'
  end.

(** What [del d[k]] leaves of [d] when [k] is a key of [d]: the items of
    [d] without the one of key [k]. *)
Definition dict_del (k : str) (d : dict V) : dict V :=
  filter (fun kv => negb (str_eqb (fst kv) k)) d.

(** [d.keys()] *)
Definition dict_keys (d : dict V) : list str := List.map fst d.

(** [dict(items)] for a sequence of pairs. *)
Definition dict_of_items (items : list (str * V)) : dict V :=
  fold_left (fun d kv => dict_set (fst kv) (snd kv) d) items [].

(** The keys of a dictionary are pairwise distinct. *)
Definition dict_wf (d : dict V) : Prop := NoDup (dict_keys d).
End Dict.

(** [dict(seq)] for a list of lists: every element must have length two. *)
Fixpoint dict_of_lists (seq : list (list str)) (acc : dict str)
  : Result (dict str) :=
  match seq with
  | [] => Ok acc
  | [k; v] :: seq' => dict_of_lists seq' (dict_set k v acc)
  | _ :: _ => Raise ValueError
  end.

(** ** The application object and its state *)

(** One call made through [qubesd_call(dest, method, arg, payload)]. *)
Record Call : Type := mkCall {
  call_dest : str;
  call_method : str;
  call_arg : option str;
  call_payload : option bytes
}.

(** A wrapper object held in [VMCollection._vm_objects].  [vm_id] is the
    identity of the Python object: two references denote the same instance
    exactly when their [vm_id] agree.  [vm_name] is the current value of
    its [name] attribute, which code outside this module may change (a
    rename), and [vm_class] is [vm.__class__.__name__]. *)
Record VM : Type := mkVM {
  vm_id : nat;
  vm_name : str;
  vm_class : str
}.

(** The attributes of the application object and of its [domains]
    collection, with the log of the calls made through its dispatcher and
    the allocator of object identities. *)
Record State : Type := mkState {
  calls : list Call;
  _vm_list : option (dict (dict str));
  _vm_objects : dict VM;
  next_id : nat;
  _pool_drivers : option (dict (list str))
}.

(** [QubesBase.__init__] on a dispatcher that has made no call yet. *)
Definition init : State :=
  {| calls := []; _vm_list := None; _vm_objects := []; next_id := 0%nat;
     _pool_drivers := None |}.

Definition set_vm_list (l : option (dict (dict str))) (s : State) : State :=
  {| calls := calls s; _vm_list := l; _vm_objects := _vm_objects s;
     next_id := next_id s; _pool_drivers := _pool_drivers s |}.

Definition set_vm_objects (o : dict VM) (s : State) : State :=
  {| calls := calls s; _vm_list := _vm_list s; _vm_objects := o;
     next_id := next_id s; _pool_drivers := _pool_drivers s |}.

Definition set_pool_drivers (p : option (dict (list str))) (s : State)
  : State :=
  {| calls := calls s; _vm_list := _vm_list s; _vm_objects := _vm_objects s;
     next_id := next_id s; _pool_drivers := p |}.

(** Methods: a result or an exception, and the state left behind (what was
    written before an exception stays written). *)
Definition M (A : Type) : Type := State -> Result A * State.

Definition ret {A} (a : A) : M A := fun s => (Ok a, s).

Definition raise {A} (e : exception) : M A := fun s => (Raise e, s).

Definition bind {A B} (m : M A) (k : A -> M B) : M B :=
  fun s =>
    match m s with
    | (Ok a, s') => k a s'
    | (Raise e, s') => (Raise e, s')
    end.

Definition lift {A} (r : Result A) : M A := fun s => (r, s).

Definition get_state : M State := fun s => (Ok s, s).

Definition modify (f : State -> State) : M unit := fun s => (Ok tt, f s).

Declare Scope monad_scope.
Delimit Scope monad_scope with monad.
Notation "x <- m ;; k" := (bind m (fun x => k))
  (at level 61, m at next level, right associativity) : monad_scope.
Notation "m ;; k" := (bind m (fun _ => k))
  (at level 61, right associativity) : monad_scope.
Local Open Scope monad_scope.

(** [for x in xs: body(x)] *)
Fixpoint for_each {A} (xs : list A) (body : A -> M unit) : M unit :=
  match xs with
  | [] => ret tt
  | x :: xs' => body x ;; for_each xs' body
  end.

(** ** VMCollection and QubesBase *)

(** One line of the listing, [refresh_cache] lines 62 to 66:
    [vm_name, props = vm_data.decode('ascii').split(' ', 1)], then
    [dict([vm_prop.split('=', 1) for vm_prop in props.split(' ')])]. *)
Definition parse_vm_data (vm_data : bytes) : Result (str * dict str) :=
  rbind (decode_ascii vm_data) (fun line =>
  match str_split SPACE (Some 1%nat) line with
  | [vm_name; props] =>
      let props := str_split SPACE None props in
      rbind (dict_of_lists
               (List.map (str_split EQUALS (Some 1%nat)) props) [])
            (fun d => Ok (vm_name, d))
  | _ => Raise ValueError
  end).

(** The loop over [vm_list_data.splitlines()] filling [new_vm_list]. *)
Fixpoint parse_vm_lines (lines : list bytes) (new_vm_list : dict (dict str))
  : Result (dict (dict str)) :=
  match lines with
  | [] => Ok new_vm_list
  | vm_data :: lines' =>
      rbind (parse_vm_data vm_data) (fun nd =>
      parse_vm_lines lines' (dict_set (fst nd) (snd nd) new_vm_list))
  end.

Definition parse_vm_list (vm_list_data : bytes) : Result (dict (dict str)) :=
  parse_vm_lines (bytes_splitlines vm_list_data) [].

(** One line of the driver listing, [_refresh_pool_drivers] lines 140 to
    143; [None] for an empty line, which the loop skips. *)
Definition parse_driver_line (driver_line : str)
  : Result (option (str * list str)) :=
  match driver_line with
  | [] => Ok None
  | _ =>
      match str_split SPACE (Some 1%nat) driver_line with
      | [driver_name; driver_options] =>
          Ok (Some (driver_name, str_split SPACE None driver_options))
      | _ => Raise ValueError
      end
  end.

Fixpoint parse_driver_lines (lines : list str)
  (pool_drivers : dict (list str)) : Result (dict (list str)) :=
  match lines with
  | [] => Ok pool_drivers
  | driver_line :: lines' =>
      rbind (parse_driver_line driver_line) (fun r =>
      match r with
      | None => parse_driver_lines lines' pool_drivers
      | Some (n, o) => parse_driver_lines lines' (dict_set n o pool_drivers)
      end)
  end.

(** [sorted(items)] on pairs of strings: tuples compare by their first
    components, then by their second ones.  The order is total, so the
    result does not depend on the sorting algorithm; it is written here as
    a stable insertion sort. *)
Definition item_leb (x y : str * str) : bool :=
  match str_compare (fst x) (fst y) with
  | Lt => true
  | Eq => str_leb (snd x) (snd y)
  | Gt => false
  end.

Fixpoint insert_item (x : str * str) (l : list (str * str))
  : list (str * str) :=
  match l with
  | [] => [x]
  | y :: l' => if item_leb x y then x :: l else y :: insert_item x l'
  end.

Fixpoint sorted (l : list (str * str)) : list (str * str) :=
  match l with
  | [] => []
  | x :: l' => insert_item x (sorted l')
  end.

(** ['{}={}\n'.format(key, value)] *)
Definition format_option (kv : str * str) : str :=
  fst kv ++ [EQUALS] ++ snd kv ++ [LF].

(** The text built by [add_pool], lines 167 to 169. *)
Definition add_pool_payload (name : str) (kwargs : list (str * str)) : str :=
  (u "name=" ++ name ++ [LF]) ++ List.concat (List.map format_option (sorted kwargs)).

Section App.

(** What the dispatcher [app.qubesd_call] answers to a call, given the
    calls made before it: the payload of the response, or the exception it
    raises. *)
Variable daemon : list Call -> Call -> Result bytes.

(** [qubesmgmt.utils.get_entry_point_one(group, name)] (the function is
    outside this module): the class registered under [name], given by its
    [__name__], or the exception of a failed lookup. *)
Variable get_entry_point_one : str -> str -> Result str.

(** [self.app.qubesd_call(dest, method, arg, payload)] *)
Definition qubesd_call (dest method : str) (arg : option str)
  (payload : option bytes) : M bytes :=
  fun s =>
    let c := mkCall dest method arg payload in
    (daemon (calls s) c,
     {| calls := calls s ++ [c]; _vm_list := _vm_list s;
        _vm_objects := _vm_objects s; next_id := next_id s;
        _pool_drivers := _pool_drivers s |}).

(** [VMCollection.clear_cache] *)
Definition clear_cache : M unit := modify (set_vm_list None).

(** [del self._vm_objects[name]] *)
Definition del_vm_object (name : str) : M unit :=
  fun s =>
    if dict_contains name (_vm_objects s)
    then (Ok tt, set_vm_objects (dict_del name (_vm_objects s)) s)
    else (Raise (KeyError name), s).

(** The body of the loop of [refresh_cache], lines 70 to 80, for one item
    [(name, vm)] of the table; [vm_list] is [self._vm_list], which the
    method has just assigned. *)
Definition reconcile (vm_list : dict (dict str)) (item : str * VM) : M unit :=
  let name := fst item in
  let vm := snd item in
  match dict_get vm_list (vm_name vm) with
  | None => del_vm_object name
  | Some props =>
      match dict_get props (u "class") with
      | None => raise (KeyError (u "class"))
      | Some class =>
          if negb (str_eqb (vm_class vm) class) then del_vm_object name
          else if negb (str_eqb name (vm_name vm)) then
            modify (fun s =>
              set_vm_objects (dict_set (vm_name vm) vm (_vm_objects s)) s) ;;
            del_vm_object name
          else ret tt
      end
  end.

(** [VMCollection.refresh_cache(force)] *)
Definition refresh_cache (force : bool) : M unit :=
  s <- get_state ;;
  match negb force, _vm_list s with
  | true, Some _ => ret tt
  | _, _ =>
      vm_list_data <- qubesd_call (u "dom0") (u "mgmt.vm.List") None None ;;
      new_vm_list <- lift (parse_vm_list vm_list_data) ;;
      modify (set_vm_list (Some new_vm_list)) ;;
      s' <- get_state ;;
      for_each (_vm_objects s') (reconcile new_vm_list)
  end.

(** [VMCollection.__contains__] *)
Definition contains (item : str) : M bool :=
  refresh_cache false ;;
  s <- get_state ;;
  match _vm_list s with
  | Some l => ret (dict_contains item l)
  | None => raise (OtherException (u "TypeError") [])
  end.

(** Modelled from the spec: the wrapper classes live in [qubesmgmt.vm],
    outside this module.  [cls(self.app, item)] creates a wrapper object
    identified by its name [item] and its class [cls]; it holds no protocol
    state of its own and makes no call.  The new object takes the next
    identity. *)
Definition new_vm (cls item : str) : M VM :=
  fun s =>
    (Ok (mkVM (next_id s) item cls),
     {| calls := calls s; _vm_list := _vm_list s;
        _vm_objects := _vm_objects s; next_id := S (next_id s);
        _pool_drivers := _pool_drivers s |}).

(** [self._vm_list[item]['class']] *)
Definition vm_list_class (item : str) : M str :=
  s <- get_state ;;
  match _vm_list s with
  | None => raise (OtherException (u "TypeError") [])
  | Some l =>
      match dict_get l item with
      | None => raise (KeyError item)
      | Some props =>
          match dict_get props (u "class") with
          | None => raise (KeyError (u "class"))
          | Some class => ret class
          end
      end
  end.

(** [VMCollection.__getitem__] *)
Definition getitem (item : str) : M VM :=
  present <- contains item ;;
  if negb present then raise (KeyError item) else
  s <- get_state ;;
  (if negb (dict_contains item (_vm_objects s)) then
     class <- vm_list_class item ;;
     cls <- lift (get_entry_point_one (u "qubesmgmt.vm") class) ;;
     vm <- new_vm cls item ;;
     modify (fun s => set_vm_objects (dict_set item vm (_vm_objects s)) s)
   else ret tt) ;;
  s' <- get_state ;;
  match dict_get (_vm_objects s') item with
  | Some vm => ret vm
  | None => raise (KeyError item)
  end.

(** [VMCollection.keys] *)
Definition keys : M (list str) :=
  refresh_cache false ;;
  s <- get_state ;;
  match _vm_list s with
  | Some l => ret (dict_keys l)
  | None => raise (OtherException (u "AttributeError") [])
  end.

(** [QubesBase._refresh_pool_drivers] *)
Definition _refresh_pool_drivers : M unit :=
  s <- get_state ;;
  match _pool_drivers s with
  | Some _ => ret tt
  | None =>
      pool_drivers_data <-
        qubesd_call (u "dom0") (u "mgmt.pool.ListDrivers") None None ;;
      if negb (endswith1 pool_drivers_data x0a) then raise AssertionError else
      text <- lift (decode_ascii pool_drivers_data) ;;
      pool_drivers <- lift (parse_driver_lines (str_splitlines text) []) ;;
      modify (set_pool_drivers (Some pool_drivers))
  end.

(** [QubesBase.pool_drivers] *)
Definition pool_drivers : M (list str) :=
  _refresh_pool_drivers ;;
  s <- get_state ;;
  match _pool_drivers s with
  | Some d => ret (dict_keys d)
  | None => raise (OtherException (u "AttributeError") [])
  end.

(** [QubesBase.add_pool(name, driver, **kwargs)]; [kwargs] lists the
    options in the order in which the caller wrote them. *)
Definition add_pool (name driver : str) (kwargs : list (str * str)) : M unit :=
  payload <- lift (encode_utf8 (add_pool_payload name kwargs)) ;;
  qubesd_call (u "dom0") (u "mgmt.pool.Add") (Some driver) (Some payload) ;;
  ret tt.

(** [QubesBase.remove_pool(name)] *)
Definition remove_pool (name : str) : M unit :=
  qubesd_call (u "dom0") (u "mgmt.pool.Remove") (Some name) None ;;
  ret tt.

End App.

(** The table that one step of the reconciliation loop leaves, when the
    step raises nothing; [reconcile_fold] runs the steps for a list of
    items and [reconcile_all] for the items of the table itself. *)
Definition reconcile_table (vm_list : dict (dict str)) (item : str * VM)
  (t : dict VM) : dict VM :=
  match dict_get vm_list (vm_name (snd item)) with
  | None => dict_del (fst item) t
  | Some props =>
      match dict_get props (u "class") with
      | None => t
      | Some class =>
          if negb (str_eqb (vm_class (snd item)) class)
          then dict_del (fst item) t
          else if negb (str_eqb (fst item) (vm_name (snd item)))
          then dict_del (fst item) (dict_set (vm_name (snd item)) (snd item) t)
          else t
      end
  end.

Definition reconcile_fold (vm_list : dict (dict str))
  (items : list (str * VM)) (t : dict VM) : dict VM :=
  fold_left (fun t item => reconcile_table vm_list item t) items t.

Definition reconcile_all (vm_list : dict (dict str)) (t : dict VM) : dict VM :=
  reconcile_fold vm_list t t.

(** Every entry of the listing has a [class] property. *)
Definition all_have_class (vm_list : dict (dict str)) : Prop :=
  forall name props,
    dict_get vm_list name = Some props ->
    dict_contains (u "class") props = true.

(** The wrapper [vm] stored under [name] agrees with the listing: its
    name is its key, and the listing gives this name the class of [vm]. *)
Definition settled (vm_list : dict (dict str)) (name : str) (vm : VM) : Prop :=
  vm_name vm = name /\
  exists props, dict_get vm_list name = Some props /\
                dict_get props (u "class") = Some (vm_class vm).

(** No object stands under two keys. *)
Definition inj_ids (l : list (str * VM)) : Prop :=
  forall k1 v1 k2 v2,
    In (k1, v1) l -> In (k2, v2) l -> vm_id v1 = vm_id v2 -> k1 = k2.

(** A table of wrapper objects: distinct keys, and one entry per object. *)
Definition wf_table (t : dict VM) : Prop := dict_wf t /\ inj_ids t.

(** The listing gives the live name of [vm] the class of [vm]. *)
Definition listed (vm_list : dict (dict str)) (vm : VM) : Prop :=
  exists props, dict_get vm_list (vm_name vm) = Some props /\
                dict_get props (u "class") = Some (vm_class vm).

(** The invariant of the reconciliation loop, with [t0] the table when
    the loop starts, [rest] the items still to visit and [t] the table: an
    entry of [t] is either still to visit or settled, no object stands
    under two keys, and every object comes from [t0]. *)
Definition reconcile_inv (vm_list : dict (dict str))
  (t0 rest : list (str * VM)) (t : dict VM) : Prop :=
  dict_wf t
  /\ (forall k v,
        dict_get t k = Some v ->
        In (k, v) rest
        \/ (settled vm_list k v
            /\ forall k' v', In (k', v') rest -> vm_id v' <> vm_id v))
  /\ (forall k1 v1 k2 v2,
        dict_get t k1 = Some v1 -> dict_get t k2 = Some v2 ->
        vm_id v1 = vm_id v2 -> k1 = k2)
  /\ (forall k v, dict_get t k = Some v -> exists k', In (k', v) t0).

(** A state whose table is well formed and whose allocator is ahead of
    every object of the table. *)
Definition wf_state (s : State) : Prop :=
  wf_table (_vm_objects s) /\
  forall k v, In (k, v) (_vm_objects s) -> (vm_id v < next_id s)%nat.

(** The call that lists the domains. *)
Definition list_call : Call := mkCall (u "dom0") (u "mgmt.vm.List") None None.

(** The state after a refresh that made the call: the call is logged, the
    listing replaces the snapshot and the table is reconciled. *)
Definition refreshed (vl : dict (dict str)) (s : State) : State :=
  {| calls := calls s ++ [list_call];
     _vm_list := Some vl;
     _vm_objects := reconcile_all vl (_vm_objects s);
     next_id := next_id s;
     _pool_drivers := _pool_drivers s |}.

(** ** QubesLocal: the transport over the local socket *)

Module QubesLocal.

(** The client socket: what was written to it, and whether its writing
    side was shut down. *)
Record Socket : Type := mkSocket {
  sent : bytes;
  shut_wr : bool
}.

(** [client_socket.sendall(data)] *)
Definition sendall (data : bytes) (sock : Socket) : Socket :=
  {| sent := sent sock ++ data; shut_wr := shut_wr sock |}.

(** [client_socket.shutdown(socket.SHUT_WR)] *)
Definition shutdown (sock : Socket) : Socket :=
  {| sent := sent sock; shut_wr := true |}.

(** The loop [for call_arg in ('dom0', method, dest, arg)], lines 195 to
    198. *)
Fixpoint send_call_args (call_args : list (option str)) (sock : Socket)
  : Result unit * Socket :=
  match call_args with
  | [] => (Ok tt, sock)
  | call_arg :: rest =>
      match call_arg with
      | Some a =>
          match encode_ascii a with
          | Ok data => send_call_args rest (sendall [x00] (sendall data sock))
          | Raise e => (Raise e, sock)
          end
      | None => send_call_args rest (sendall [x00] sock)
      end
  end.

Section Transport.

(** The outcome of [client_socket.connect(QUBESD_SOCKET)]. *)
Variable connect : Result unit.

(** The bytes the daemon writes back, given the request it has read. *)
Variable qubesd : bytes -> bytes.

(** [PropertyHolder._parse_qubesd_response] (in [qubesmgmt.base], outside
    this module). *)
Variable _parse_qubesd_response : bytes -> Result bytes.

(** [QubesLocal.qubesd_call]: the value returned or the exception raised,
    and the socket as the call leaves it. *)
Definition qubesd_call (dest method : str) (arg : option str)
  (payload : option bytes) : Result bytes * Socket :=
  let client_socket := mkSocket [] false in
  match connect with
  | Raise e => (Raise e, client_socket)
  | Ok _ =>
      match send_call_args [Some (u "dom0"); Some method; Some dest; arg]
                           client_socket with
      | (Raise e, sock) => (Raise e, sock)
      | (Ok _, sock) =>
          let sock := match payload with
                      | Some data => sendall data sock
                      | None => sock
                      end in
          let sock := shutdown sock in
          (_parse_qubesd_response (qubesd (sent sock)), sock)
      end
  end.

End Transport.

(** The framing as the specification words it: the fields source, method,
    destination and argument in this order, each followed by one null
    byte, an absent field skipped entirely, then the payload if there is
    one. *)
Definition spec_frame (fields : list (option bytes)) (payload : option bytes)
  : bytes :=
  List.concat (List.map (fun f => match f with
                                  | Some data => data ++ [x00]
                                  | None => []
                                  end) fields)
  ++ match payload with Some data => data | None => [] end.

End QubesLocal.

(** ** QubesRemote: the transport over qrexec *)

Module QubesRemote.

(** What [subprocess.Popen(argv, ...)] followed by [p.communicate(input)]
    gives: the two output streams and the return code of the process, or
    the exception of a process that could not be started. *)
Inductive Process : Type :=
| Exited (stdout stderr : bytes) (returncode : Z)
| NotStarted (e : exception).

Section Transport.

Variable popen : list str -> option bytes -> Process.

(** [PropertyHolder._parse_qubesd_response] (in [qubesmgmt.base], outside
    this module). *)
Variable _parse_qubesd_response : bytes -> Result bytes.

(** [QubesRemote.qubesd_call] *)
Definition qubesd_call (dest method : str) (arg : option str)
  (payload : option bytes) : Result bytes :=
  let service_name :=
    match arg with
    | Some a => method ++ [PLUS] ++ a
    | None => method
    end in
  match popen [u "qrexec-client-vm"; dest; service_name] payload with
  | NotStarted e => Raise e
  | Exited stdout stderr returncode =>
      if negb (returncode =? 0)%Z then
        rbind (decode_utf8 stderr) (fun text =>
        Raise (QubesException (u "Service call error: %s") [text]))
      else _parse_qubesd_response stdout
  end.

End Transport.

End QubesRemote.

(** The failures the specification names.  [ConnectionError] is Python's
    built-in class; no class named [ProtocolError] exists in the module. *)
Definition is_named (name : string) (e : exception) : bool :=
  match e with
  | OtherException n _ => str_eqb n (u name)
  | _ => false
  end.

Definition is_ConnectionError : exception -> bool := is_named "ConnectionError".
Definition is_ProtocolError : exception -> bool := is_named "ProtocolError".

(** ** The listing format *)

Definition is_space_byte (x : byte) : bool := Byte.to_N x =? 32.

Definition is_equals_byte (x : byte) : bool := Byte.to_N x =? 61.

(** The shape of a line of the listing, as the specification describes
    it: a name, a space, then tokens separated by single spaces, each of
    them a key, an equals sign and a value. *)
Definition has_shape (line : bytes) : bool :=
  match split is_space_byte (Some 1%nat) line with
  | [_; props] =>
      forallb (existsb is_equals_byte) (split is_space_byte None props)
  | _ => false
  end.

(** A character of a name or of a value: ASCII, neither a space nor a
    line terminator.  A character of a key is moreover no equals sign. *)
Definition name_char (c : N) : bool :=
  (c <? 128) && negb (c =? 32) && negb (c =? 10) && negb (c =? 13).

Definition key_char (c : N) : bool := name_char c && negb (c =? 61).

(** A character that may stand in a line: ASCII and no line terminator. *)
Definition line_char (c : N) : bool :=
  (c <? 128) && negb (c =? 10) && negb (c =? 13).

Definition wf_property (kv : str * str) : bool :=
  forallb key_char (fst kv) && forallb name_char (snd kv).

(** A record of a well-formed listing: a name and its properties, one of
    them the class. *)
Definition wf_record (r : str * list (str * str)) : bool :=
  forallb name_char (fst r) && forallb wf_property (snd r)
  && existsb (fun kv => str_eqb (fst kv) (u "class")) (snd r).

(** [sep.join(l)] *)
Fixpoint join (sep : str) (l : list str) : str :=
  match l with
  | [] => []
  | [x] => x
  | x :: l' => x ++ sep ++ join sep l'
  end.

Definition render_property (kv : str * str) : str :=
  fst kv ++ [EQUALS] ++ snd kv.

Definition render_record (r : str * list (str * str)) : str :=
  fst r ++ [SPACE] ++ join [SPACE] (List.map render_property (snd r)).

(** The payload that lists the records [rs]: one line per record, every
    line ended by a line feed. *)
Definition render_listing (rs : list (str * list (str * str))) : bytes :=
  List.concat (List.map (fun r => List.map byte_of (render_record r) ++ [x0a]) rs).

(** The snapshot that the records [rs] describe. *)
Definition snapshot_of (rs : list (str * list (str * str)))
  : dict (dict str) :=
  dict_of_items (List.map (fun r => (fst r, dict_of_items (snd r))) rs).

(** The only exceptions of the parser are [ValueError] and its subclass
    [UnicodeDecodeError]. *)
Definition parse_error (e : exception) : Prop :=
  e = ValueError \/ e = UnicodeDecodeError.

(** The call that lists the pool drivers. *)
Definition drivers_call : Call :=
  mkCall (u "dom0") (u "mgmt.pool.ListDrivers") None None.

(** The call that [add_pool] makes for a driver and an encoded payload. *)
Definition pool_add_call (driver : str) (payload : bytes) : Call :=
  mkCall (u "dom0") (u "mgmt.pool.Add") (Some driver) (Some payload).

(** The scenario of two forced refreshes, each followed by [get(name)]:
    the two instances returned. *)
Definition refresh_get_twice (daemon : list Call -> Call -> Result bytes)
  (get_entry_point_one : str -> str -> Result str) (name : str)
  : M (VM * VM) :=
  (refresh_cache daemon true ;;
   o1 <- getitem daemon get_entry_point_one name ;;
   refresh_cache daemon true ;;
   o2 <- getitem daemon get_entry_point_one name ;;
   ret (o1, o2))%monad.

(** The state after [get(item)] has created the wrapper [vm]. *)
Definition with_new_vm (item : str) (vm : VM) (s : State) : State :=
  {| calls := calls s; _vm_list := _vm_list s;
     _vm_objects := dict_set item vm (_vm_objects s);
     next_id := S (next_id s); _pool_drivers := _pool_drivers s |}.

(** ** The remaining methods *)

(** [[f(x) for x in xs]]: the results in order, up to the first exception. *)
Fixpoint collect {A B} (xs : list A) (f : A -> M B) : M (list B) :=
  match xs with
  | [] => ret []
  | x :: xs' => y <- f x ;; ys <- collect xs' f ;; ret (y :: ys)
  end.

(** [VMCollection.__iter__], run to its end as in [list(collection)]:
    the generator refreshes, then yields [self[vm]] for every name of the
    snapshot it started from. *)
Definition iter (daemon : list Call -> Call -> Result bytes)
  (get_entry_point_one : str -> str -> Result str) : M (list VM) :=
  refresh_cache daemon false ;;
  s <- get_state ;;
  match _vm_list s with
  | Some l => collect (dict_keys l) (getitem daemon get_entry_point_one)
  | None => raise (OtherException (u "TypeError") [])
  end.

(** [QubesBase.pool_driver_parameters(driver)] *)
Definition pool_driver_parameters
  (daemon : list Call -> Call -> Result bytes) (driver : str)
  : M (list str) :=
  _refresh_pool_drivers daemon ;;
  s <- get_state ;;
  match _pool_drivers s with
  | Some d =>
      match dict_get d driver with
      | Some driver_options => ret driver_options
      | None => raise (KeyError driver)
      end
  | None => raise (OtherException (u "TypeError") [])
  end.

(** The call that removes a pool. *)
Definition pool_remove_call (name : str) : Call :=
  mkCall (u "dom0") (u "mgmt.pool.Remove") (Some name) None.

(** A character of a driver name or of an option name: ASCII, no space
    and none of the line boundaries of [str.splitlines]. *)
Definition word_char (c : N) : bool :=
  (c <? 128) && negb (c =? 32) && negb (str_is_break c).

(** A record of a driver listing: a name and at least one option. *)
Definition wf_driver (r : str * list str) : bool :=
  forallb word_char (fst r) && negb (match snd r with [] => true | _ => false end)
  && forallb (forallb word_char) (snd r).

Definition render_driver (r : str * list str) : str :=
  fst r ++ [SPACE] ++ join [SPACE] (snd r).

(** The payload that lists the drivers [rs], every line ended by a line
    feed. *)
Definition render_drivers (rs : list (str * list str)) : bytes :=
  List.map byte_of (List.concat (List.map (fun r => render_driver r ++ [LF]) rs)).

(** A code point that UTF-8 can encode: below U+110000 and no
    surrogate. *)
Definition encodable (c : N) : bool :=
  (c <? 1114112) && negb ((55296 <=? c) && (c <=? 57343)).

(** The request of the local transport for encoded fields. *)
Definition local_frame (m d a : bytes) (payload : bytes) : bytes :=
  b "dom0" ++ [x00] ++ m ++ [x00] ++ d ++ [x00] ++ a ++ [x00] ++ payload.

(** A collection that holds the snapshot [vl] and whose table is well
    formed and settled against it. *)
Definition settled_state (vl : dict (dict str)) (s : State) : Prop :=
  _vm_list s = Some vl
  /\ wf_state s
  /\ forall k v, In (k, v) (_vm_objects s) -> settled vl k v.

(** Every class of the listing is registered under its own name. *)
Definition classes_registered (get_entry_point_one : str -> str -> Result str)
  (vl : dict (dict str)) : Prop :=
  forall name props class,
    dict_get vl name = Some props ->
    dict_get props (u "class") = Some class ->
    get_entry_point_one (u "qubesmgmt.vm") class = Ok class.

(** The state [s] with one more call in its log. *)
Definition with_call (c : Call) (s : State) : State :=
  {| calls := calls s ++ [c]; _vm_list := _vm_list s;
     _vm_objects := _vm_objects s; next_id := next_id s;
     _pool_drivers := _pool_drivers s |}.

(** A method that leaves the snapshot and the driver cache alone, or
    makes no call, whatever its outcome. *)
Definition keeps {A X} (field : State -> X) (m : M A) : Prop :=
  forall s, field (snd (m s)) = field s.

(** A method that leaves the collection of domains alone: its snapshot,
    its table and the allocator of identities. *)
Definition keeps_domains {A} (m : M A) : Prop :=
  keeps _vm_list m /\ keeps _vm_objects m /\ keeps next_id m.

(** The listing has the live name of [vm], without a class. *)
Definition lacks_class (vm_list : dict (dict str)) (vm : VM) : Prop :=
  exists props, dict_get vm_list (vm_name vm) = Some props /\
                dict_get props (u "class") = None.

(** A string without the null character. *)
Definition no_nul (s : str) : bool := forallb (fun c => negb (c =? 0)) s.

(** The separator of the fields of a request. *)
Definition is_nul_byte (x : byte) : bool := Byte.to_N x =? 0.

(** A string of ASCII characters. *)
Definition is_ascii (s : str) : bool := forallb (fun c => c <? 128) s.

(** * Properties *)

(** ** The local transport *)

Lemma encode_ascii_dom0 : encode_ascii (u "dom0") = Ok (b "dom0").
Proof. reflexivity. Qed.

(** C1, as the specification words it, fails: for a call without argument
    the transport still writes the null byte that terminates the (empty)
    argument field, so the request is not the framing that skips absent
    fields. *)
Lemma local_absent_argument_not_skipped :
  QubesLocal.sent
    (snd (QubesLocal.qubesd_call (Ok tt) (fun _ => []) (fun r => Ok r)
            (u "dom0") (u "mgmt.vm.List") None None))
  = b "dom0" ++ [x00] ++ b "mgmt.vm.List" ++ [x00] ++ b "dom0" ++ [x00; x00]
  /\ QubesLocal.sent
    (snd (QubesLocal.qubesd_call (Ok tt) (fun _ => []) (fun r => Ok r)
            (u "dom0") (u "mgmt.vm.List") None None))
  <> QubesLocal.spec_frame
       [Some (b "dom0"); Some (b "mgmt.vm.List"); Some (b "dom0"); None] None.
Proof.
  split; [reflexivity|].
  vm_compute. intro H. discriminate H.
Qed.

(** C1 (amended): once the socket is connected, a call whose fields are
    ASCII writes 'dom0', the method, the destination and the argument in
    this order, each followed by one null byte; an absent argument is
    written as an empty field, that is its null byte alone; the payload,
    if any, follows raw, and the writing side is then shut down. *)
Theorem local_request_framing :
  forall (qubesd : bytes -> bytes) (parse : bytes -> Result bytes)
         (dest method : str) (arg : option str) (payload : option bytes)
         (m d a : bytes),
    encode_ascii method = Ok m ->
    encode_ascii dest = Ok d ->
    match arg with Some x => encode_ascii x | None => Ok [] end = Ok a ->
    QubesLocal.qubesd_call (Ok tt) qubesd parse dest method arg payload
    = (parse (qubesd (b "dom0" ++ [x00] ++ m ++ [x00] ++ d ++ [x00]
                        ++ a ++ [x00]
                        ++ match payload with Some p => p | None => [] end)),
       QubesLocal.mkSocket
         (b "dom0" ++ [x00] ++ m ++ [x00] ++ d ++ [x00] ++ a ++ [x00]
            ++ match payload with Some p => p | None => [] end)
         true).
Proof.
  intros qubesd parse dest method arg payload m d a Hm Hd Ha.
  unfold QubesLocal.qubesd_call.
  destruct arg as [x|]; cbn [QubesLocal.send_call_args];
    rewrite encode_ascii_dom0, Hm, Hd; [rewrite Ha | injection Ha as <-];
    destruct payload as [p|];
    unfold QubesLocal.shutdown, QubesLocal.sendall; cbn [QubesLocal.sent];
    repeat rewrite <- app_assoc; cbn [app]; try rewrite app_nil_r;
    reflexivity.
Qed.

Lemma local_request_framing_witness :
  QubesLocal.qubesd_call (Ok tt) (fun _ => b "0") (fun r => Ok r)
    (u "work") (u "mgmt.vm.List") None (Some (b "x"))
  = (Ok (b "0"),
     QubesLocal.mkSocket
       (b "dom0" ++ [x00] ++ b "mgmt.vm.List" ++ [x00] ++ b "work" ++ [x00]
          ++ [] ++ [x00] ++ b "x") true).
Proof.
  apply (local_request_framing (fun _ => b "0") (fun r => Ok r)
           (u "work") (u "mgmt.vm.List") None (Some (b "x"))
           (b "mgmt.vm.List") (b "work") []); reflexivity.
Defined.

(** A field that is not ASCII stops the call: the fields before it have
    been written, nothing is written after them, and the encoding error
    reaches the caller. *)
Lemma local_request_method_not_ascii :
  forall qubesd parse dest method arg payload,
    encode_ascii method = Raise UnicodeEncodeError ->
    QubesLocal.qubesd_call (Ok tt) qubesd parse dest method arg payload
    = (Raise UnicodeEncodeError,
       QubesLocal.mkSocket (b "dom0" ++ [x00]) false).
Proof.
  intros. unfold QubesLocal.qubesd_call. cbn [QubesLocal.send_call_args].
  rewrite encode_ascii_dom0, H. reflexivity.
Qed.

(** A socket that cannot be connected: the exception of [connect] is
    raised again and nothing is written. *)
Lemma local_request_connect_fails :
  forall e qubesd parse dest method arg payload,
    QubesLocal.qubesd_call (Raise e) qubesd parse dest method arg payload
    = (Raise e, QubesLocal.mkSocket [] false).
Proof. reflexivity. Qed.

(** ** The remote transport *)

Lemma decode_utf8_ascii :
  forall data : bytes,
    forallb (fun x => Byte.to_N x <? 128) data = true ->
    decode_utf8 data = Ok (List.map Byte.to_N data).
Proof.
  induction data as [|x data IH]; intro H; [reflexivity|].
  cbn [forallb] in H. apply andb_true_iff in H as [Hx Hd].
  cbn [decode_utf8 List.map]. rewrite Hx, (IH Hd). reflexivity.
Qed.

(** C2, as the specification words it, fails: the helper exits with code
    1 and the diagnostic "no such domain"; the exception raised is a
    [QubesException], not a [ConnectionError]. *)
Lemma remote_failure_is_not_ConnectionError :
  QubesRemote.qubesd_call
    (fun _ _ => QubesRemote.Exited [] (b "no such domain") 1%Z)
    (fun r => Ok r) (u "work") (u "mgmt.vm.List") None None
  = Raise (QubesException (u "Service call error: %s") [u "no such domain"])
  /\ is_ConnectionError
       (QubesException (u "Service call error: %s") [u "no such domain"])
     = false.
Proof. split; reflexivity. Qed.

(** C2 (amended): when the helper exits with a return code other than 0
    and its standard error is valid UTF-8, the call raises
    [QubesException] with the format 'Service call error: %s' and, as its
    argument, the decoded standard error; the service name is the method,
    followed by '+' and the argument when there is one. *)
Theorem remote_failure_raises_QubesException :
  forall (popen : list str -> option bytes -> QubesRemote.Process)
         (parse : bytes -> Result bytes)
         (dest method : str) (arg : option str) (payload : option bytes)
         (stdout stderr : bytes) (returncode : Z) (text : str),
    popen [u "qrexec-client-vm"; dest;
           match arg with Some a => method ++ [PLUS] ++ a | None => method end]
          payload
    = QubesRemote.Exited stdout stderr returncode ->
    returncode <> 0%Z ->
    decode_utf8 stderr = Ok text ->
    QubesRemote.qubesd_call popen parse dest method arg payload
    = Raise (QubesException (u "Service call error: %s") [text]).
Proof.
  intros popen parse dest method arg payload stdout stderr rc text Hp Hrc Hd.
  unfold QubesRemote.qubesd_call. rewrite Hp.
  destruct (Z.eqb_spec rc 0) as [E|_]; [contradiction|].
  cbn [negb]. rewrite Hd. reflexivity.
Qed.

Lemma remote_failure_raises_QubesException_witness :
  QubesRemote.qubesd_call
    (fun _ _ => QubesRemote.Exited [] (b "no such domain") 1%Z)
    (fun r => Ok r) (u "work") (u "mgmt.vm.List") (Some (u "x")) None
  = Raise (QubesException (u "Service call error: %s") [u "no such domain"]).
Proof.
  apply (remote_failure_raises_QubesException
           (fun _ _ => QubesRemote.Exited [] (b "no such domain") 1%Z)
           (fun r => Ok r) (u "work") (u "mgmt.vm.List") (Some (u "x")) None
           [] (b "no such domain") 1%Z (u "no such domain")).
  - reflexivity.
  - discriminate.
  - reflexivity.
Defined.

(** ** Strings and dictionaries *)

Lemma str_eqb_spec : forall x y : str, reflect (x = y) (str_eqb x y).
Proof.
  induction x as [|c x IH]; destruct y as [|d y]; cbn [str_eqb];
    try (constructor; congruence).
  destruct (N.eqb_spec c d) as [->|Hcd]; cbn [andb].
  - destruct (IH y) as [->|Hxy]; constructor; congruence.
  - constructor; congruence.
Qed.

Lemma str_eqb_refl : forall x, str_eqb x x = true.
Proof. intro x. destruct (str_eqb_spec x x); congruence. Qed.

Lemma str_eqb_neq : forall x y, x <> y -> str_eqb x y = false.
Proof. intros x y H. destruct (str_eqb_spec x y); congruence. Qed.

Lemma str_eqb_sym : forall x y, str_eqb x y = str_eqb y x.
Proof.
  intros x y.
  destruct (str_eqb_spec x y), (str_eqb_spec y x); congruence.
Qed.

Section DictFacts.
Context {V : Type}.
Implicit Types (d : dict V) (k : str) (v : V).

Lemma dict_get_set : forall d k v k',
  dict_get (dict_set k v d) k'
  = if str_eqb k k' then Some v else dict_get d k'.
Proof.
  induction d as [|[k0 v0] d IH]; intros k v k'; cbn [dict_set dict_get].
  - reflexivity.
  - destruct (str_eqb_spec k0 k) as [->|Hk0]; cbn [dict_get].
    + destruct (str_eqb k k'); reflexivity.
    + rewrite IH. destruct (str_eqb_spec k0 k') as [->|Hk'].
      * rewrite (str_eqb_neq k k'); congruence.
      * reflexivity.
Qed.

Lemma dict_get_set_same : forall d k v, dict_get (dict_set k v d) k = Some v.
Proof. intros. rewrite dict_get_set, str_eqb_refl. reflexivity. Qed.

Lemma dict_get_set_other : forall d k v k',
  k <> k' -> dict_get (dict_set k v d) k' = dict_get d k'.
Proof. intros. rewrite dict_get_set, str_eqb_neq; auto. Qed.

Lemma dict_get_del : forall d k k',
  dict_get (dict_del k d) k' = if str_eqb k k' then None else dict_get d k'.
Proof.
  induction d as [|[k0 v0] d IH]; intros k k'; unfold dict_del in *;
    cbn [filter dict_get fst].
  - destruct (str_eqb k k'); reflexivity.
  - destruct (str_eqb_spec k0 k) as [->|Hk0]; cbn [negb dict_get].
    + rewrite IH. destruct (str_eqb k k'); reflexivity.
    + rewrite IH. destruct (str_eqb_spec k0 k') as [->|Hk'].
      * rewrite (str_eqb_neq k k'); congruence.
      * reflexivity.
Qed.


Lemma dict_get_del_other : forall d k k',
  k <> k' -> dict_get (dict_del k d) k' = dict_get d k'.
Proof. intros. rewrite dict_get_del, str_eqb_neq; auto. Qed.

Lemma dict_get_In : forall d k v, dict_get d k = Some v -> In (k, v) d.
Proof.
  induction d as [|[k0 v0] d IH]; intros k v; cbn [dict_get].
  - discriminate.
  - destruct (str_eqb_spec k0 k) as [->|Hk0].
    + intros [= ->]. left. reflexivity.
    + intro H. right. auto.
Qed.

Lemma dict_get_None : forall d k,
  dict_get d k = None <-> ~ In k (dict_keys d).
Proof.
  induction d as [|[k0 v0] d IH]; intro k; cbn [dict_get dict_keys List.map fst].
  - split; [intros _ []|reflexivity].
  - destruct (str_eqb_spec k0 k) as [->|Hk0].
    + split; [discriminate|]. intro H. exfalso. apply H. left. reflexivity.
    + rewrite IH. unfold dict_keys. cbn. tauto.
Qed.

Lemma dict_contains_In : forall d k,
  dict_contains k d = true <-> In k (dict_keys d).
Proof.
  intros d k. unfold dict_contains.
  destruct (dict_get d k) eqn:E.
  - split; [intros _|reflexivity].
    apply dict_get_In in E. apply (in_map fst) in E. exact E.
  - apply dict_get_None in E. split; [discriminate|contradiction].
Qed.

Lemma In_dict_get : forall d k v,
  dict_wf d -> In (k, v) d -> dict_get d k = Some v.
Proof.
  unfold dict_wf, dict_keys.
  induction d as [|[k0 v0] d IH]; intros k v Hwf Hin; [destruct Hin|].
  cbn [List.map fst] in Hwf. inversion Hwf as [|? ? Hnotin Hwf']; subst.
  cbn [dict_get]. destruct Hin as [[= -> ->]|Hin].
  - rewrite str_eqb_refl. reflexivity.
  - destruct (str_eqb_spec k0 k) as [->|Hk0].
    + exfalso. apply Hnotin. apply (in_map fst) in Hin. exact Hin.
    + auto.
Qed.

Lemma dict_keys_del : forall d k,
  dict_keys (dict_del k d) = filter (fun k' => negb (str_eqb k' k)) (dict_keys d).
Proof.
  induction d as [|[k0 v0] d IH]; intro k; [reflexivity|].
  unfold dict_del, dict_keys in *. cbn [filter List.map fst].
  destruct (str_eqb k0 k); cbn [negb List.map fst]; rewrite IH; reflexivity.
Qed.

Lemma dict_keys_set : forall d k v,
  dict_keys (dict_set k v d)
  = if dict_contains k d then dict_keys d else dict_keys d ++ [k].
Proof.
  induction d as [|[k0 v0] d IH]; intros k v; [reflexivity|].
  unfold dict_contains, dict_keys in *. cbn [dict_set dict_get].
  destruct (str_eqb_spec k0 k) as [->|Hk0]; [reflexivity|].
  cbn [List.map fst]. rewrite IH.
  destruct (dict_get d k); reflexivity.
Qed.

Lemma NoDup_filter : forall (A : Type) (f : A -> bool) (l : list A),
  NoDup l -> NoDup (filter f l).
Proof.
  induction l as [|a l IH]; intro H; [constructor|].
  inversion H; subst. cbn [filter]. destruct (f a); auto.
  constructor; auto. rewrite filter_In. tauto.
Qed.

Lemma dict_wf_del : forall d k, dict_wf d -> dict_wf (dict_del k d).
Proof.
  unfold dict_wf. intros. rewrite dict_keys_del. apply NoDup_filter; auto.
Qed.

Lemma dict_wf_set : forall d k v, dict_wf d -> dict_wf (dict_set k v d).
Proof.
  unfold dict_wf. intros d k v H. rewrite dict_keys_set.
  destruct (dict_contains k d) eqn:E; [exact H|].
  apply NoDup_rev in H. rewrite <- (rev_involutive (dict_keys d ++ [k])).
  apply NoDup_rev. rewrite rev_app_distr. cbn. constructor; auto.
  rewrite <- in_rev. intro Hin. apply dict_contains_In in Hin. congruence.
Qed.

Lemma In_dict_keys_set : forall d k v k',
  In k' (dict_keys (dict_set k v d)) <-> k' = k \/ In k' (dict_keys d).
Proof.
  intros. rewrite <- !dict_contains_In. unfold dict_contains.
  rewrite dict_get_set. destruct (str_eqb_spec k k') as [->|Hk].
  - tauto.
  - destruct (dict_get d k'); split; auto. intros [->|]; congruence.
Qed.

End DictFacts.

(** ** The reconciliation loop *)

Lemma set_vm_objects_same : forall s, set_vm_objects (_vm_objects s) s = s.
Proof. destruct s; reflexivity. Qed.

Lemma set_vm_objects_twice : forall t t' s,
  set_vm_objects t (set_vm_objects t' s) = set_vm_objects t s.
Proof. reflexivity. Qed.

Lemma del_vm_object_ok : forall name s,
  dict_contains name (_vm_objects s) = true ->
  del_vm_object name s
  = (Ok tt, set_vm_objects (dict_del name (_vm_objects s)) s).
Proof. intros name s H. unfold del_vm_object. rewrite H. reflexivity. Qed.

Lemma dict_contains_set_mono : forall (t : dict VM) k n v,
  dict_contains k t = true -> dict_contains k (dict_set n v t) = true.
Proof.
  intros t k n v. unfold dict_contains. rewrite dict_get_set.
  destruct (str_eqb n k); auto.
Qed.

Lemma dict_contains_del_other : forall (t : dict VM) k k0,
  k <> k0 -> dict_contains k (dict_del k0 t) = dict_contains k t.
Proof.
  intros t k k0 H. unfold dict_contains.
  rewrite dict_get_del_other; auto.
Qed.

(** One step of the loop raises nothing when the key of its item is still
    in the table and the listing gives every name a class. *)
Lemma reconcile_step_ok : forall vl item s,
  all_have_class vl ->
  dict_contains (fst item) (_vm_objects s) = true ->
  reconcile vl item s
  = (Ok tt, set_vm_objects (reconcile_table vl item (_vm_objects s)) s).
Proof.
  intros vl [name vm] s Hcls Hin. unfold reconcile, reconcile_table.
  cbn [fst snd] in *.
  destruct (dict_get vl (vm_name vm)) as [props|] eqn:Evl.
  - specialize (Hcls _ _ Evl). unfold dict_contains in Hcls.
    destruct (dict_get props (u "class")) as [class|]; [|discriminate].
    destruct (negb (str_eqb (vm_class vm) class)).
    + apply del_vm_object_ok; exact Hin.
    + destruct (negb (str_eqb name (vm_name vm))).
      * unfold bind, modify.
        rewrite del_vm_object_ok.
        -- reflexivity.
        -- cbn [_vm_objects set_vm_objects].
           apply dict_contains_set_mono; exact Hin.
      * unfold ret. rewrite set_vm_objects_same. reflexivity.
  - apply del_vm_object_ok; exact Hin.
Qed.

Lemma dict_contains_reconcile_table : forall vl item (t : dict VM) k,
  k <> fst item ->
  dict_contains k t = true ->
  dict_contains k (reconcile_table vl item t) = true.
Proof.
  intros vl [name vm] t k Hk Hin. unfold reconcile_table. cbn [fst snd] in *.
  destruct (dict_get vl (vm_name vm)) as [props|];
    [destruct (dict_get props (u "class")) as [class|]; auto;
     destruct (negb (str_eqb (vm_class vm) class));
     [|destruct (negb (str_eqb name (vm_name vm))); auto]|];
    rewrite dict_contains_del_other; auto using dict_contains_set_mono.
Qed.

(** The loop over the items raises nothing and leaves the table computed
    by [reconcile_fold]. *)
Lemma for_each_reconcile_ok : forall vl items s,
  all_have_class vl ->
  NoDup (List.map fst items) ->
  (forall k, In k (List.map fst items) ->
             dict_contains k (_vm_objects s) = true) ->
  for_each items (reconcile vl) s
  = (Ok tt, set_vm_objects (reconcile_fold vl items (_vm_objects s)) s).
Proof.
  intros vl items. induction items as [|item items IH]; intros s Hcls Hnd Hin.
  - cbn. unfold ret. rewrite set_vm_objects_same. reflexivity.
  - cbn [for_each]. unfold bind.
    cbn [List.map] in Hnd, Hin. inversion Hnd as [|? ? Hnotin Hnd']; subst.
    rewrite reconcile_step_ok; [|exact Hcls|apply Hin; left; reflexivity].
    rewrite IH; [reflexivity|exact Hcls|exact Hnd'|].
    intros k Hk. cbn [_vm_objects set_vm_objects].
    apply dict_contains_reconcile_table.
    + intros ->. contradiction.
    + apply Hin. right. exact Hk.
Qed.

Section Refresh.
Variable daemon : list Call -> Call -> Result bytes.

(** A refresh that is forced, or that finds no snapshot, and whose call
    returns a listing that parses to [vl], ends in [refreshed vl s]. *)
Lemma refresh_cache_refreshed : forall force s vm_list_data vl,
  force = true \/ _vm_list s = None ->
  daemon (calls s) list_call = Ok vm_list_data ->
  parse_vm_list vm_list_data = Ok vl ->
  all_have_class vl ->
  dict_wf (_vm_objects s) ->
  refresh_cache daemon force s = (Ok tt, refreshed vl s).
Proof.
  intros force s data vl Hforce Hcall Hparse Hcls Hwf.
  unfold refresh_cache, bind, get_state.
  assert (E : forall A (x y : A),
             match negb force, _vm_list s with
             | true, Some _ => x
             | _, _ => y
             end = y).
  { intros A x y. destruct Hforce as [->| ->]; [reflexivity|].
    destruct (negb force); reflexivity. }
  rewrite E. clear E.
  unfold qubesd_call. fold list_call. rewrite Hcall.
  unfold lift. rewrite Hparse. unfold modify.
  cbn [_vm_objects set_vm_list].
  rewrite for_each_reconcile_ok; [reflexivity|exact Hcls|exact Hwf|].
  intros k Hk. cbn [_vm_objects]. apply dict_contains_In. exact Hk.
Qed.

(** A refresh that is not forced and finds a snapshot does nothing. *)
Lemma refresh_cache_cached : forall s l,
  _vm_list s = Some l -> refresh_cache daemon false s = (Ok tt, s).
Proof.
  intros s l H. unfold refresh_cache, bind, get_state. rewrite H. reflexivity.
Qed.

End Refresh.

(** The loop touches nothing but the table, whatever its outcome. *)
Lemma reconcile_frame : forall vl item s,
  exists t, snd (reconcile vl item s) = set_vm_objects t s.
Proof.
  intros vl [name vm] s. unfold reconcile. cbn [fst snd].
  assert (Hdel : forall n s0,
             exists t, snd (del_vm_object n s0) = set_vm_objects t s0).
  { intros n s0. unfold del_vm_object.
    destruct (dict_contains n (_vm_objects s0)); cbn [snd]; eauto.
    exists (_vm_objects s0). rewrite set_vm_objects_same. reflexivity. }
  destruct (dict_get vl (vm_name vm)) as [props|]; [|apply Hdel].
  destruct (dict_get props (u "class")) as [class|].
  - destruct (negb (str_eqb (vm_class vm) class)); [apply Hdel|].
    destruct (negb (str_eqb name (vm_name vm))).
    + unfold bind, modify.
      destruct (Hdel name
                  (set_vm_objects (dict_set (vm_name vm) vm (_vm_objects s)) s))
        as [t Ht].
      destruct (del_vm_object name _) as [[[]|e] s'];
        cbn [snd] in *; subst; exists t; reflexivity.
    + exists (_vm_objects s). cbn. rewrite set_vm_objects_same. reflexivity.
  - exists (_vm_objects s). cbn. rewrite set_vm_objects_same. reflexivity.
Qed.

Lemma for_each_reconcile_frame : forall vl items s,
  exists t, snd (for_each items (reconcile vl) s) = set_vm_objects t s.
Proof.
  intros vl items. induction items as [|item items IH]; intro s.
  - exists (_vm_objects s). cbn. rewrite set_vm_objects_same. reflexivity.
  - cbn [for_each]. unfold bind.
    destruct (reconcile_frame vl item s) as [t Ht].
    destruct (reconcile vl item s) as [[[]|e] s1]; cbn [snd] in *; subst.
    + destruct (IH (set_vm_objects t s)) as [t' Ht']. rewrite Ht'.
      exists t'. reflexivity.
    + exists t. reflexivity.
Qed.

Section RefreshCalls.
Variable daemon : list Call -> Call -> Result bytes.

(** A refresh that is forced or finds no snapshot makes exactly one call,
    whatever its outcome. *)
Lemma refresh_cache_one_call : forall force s,
  force = true \/ _vm_list s = None ->
  calls (snd (refresh_cache daemon force s)) = calls s ++ [list_call].
Proof.
  intros force s Hforce. unfold refresh_cache, bind, get_state.
  assert (E : forall A (x y : A),
             match negb force, _vm_list s with
             | true, Some _ => x
             | _, _ => y
             end = y).
  { intros A x y. destruct Hforce as [->| ->]; [reflexivity|].
    destruct (negb force); reflexivity. }
  rewrite E. clear E.
  unfold qubesd_call. fold list_call.
  destruct (daemon (calls s) list_call) as [data|e]; [|reflexivity].
  unfold lift. destruct (parse_vm_list data) as [vl|e]; [|reflexivity].
  unfold modify. cbn [_vm_objects set_vm_list].
  match goal with
  | |- context [for_each ?i ?f ?s0] =>
      destruct (for_each_reconcile_frame vl i s0) as [t Ht];
      destruct (for_each i f s0) as [[[]|e] s1]
  end; cbn [snd] in *; subst; reflexivity.
Qed.

(** A refresh that returns leaves a snapshot. *)
Lemma refresh_cache_returns_cached : forall force s s1,
  refresh_cache daemon force s = (Ok tt, s1) ->
  exists l, _vm_list s1 = Some l.
Proof.
  intros force s s1. unfold refresh_cache, bind, get_state.
  assert (Hmain :
    (vm_list_data <- qubesd_call daemon (u "dom0") (u "mgmt.vm.List") None None ;;
     new_vm_list <- lift (parse_vm_list vm_list_data) ;;
     modify (set_vm_list (Some new_vm_list)) ;;
     s' <- get_state ;;
     for_each (_vm_objects s') (reconcile new_vm_list))%monad s = (Ok tt, s1) ->
    exists l, _vm_list s1 = Some l).
  { unfold bind, qubesd_call, lift, modify, get_state.
    destruct (daemon (calls s) _) as [data|e]; [|discriminate].
    destruct (parse_vm_list data) as [vl|e]; [|discriminate].
    cbn [_vm_objects set_vm_list].
    match goal with
    | |- context [for_each ?i ?f ?s0] =>
        destruct (for_each_reconcile_frame vl i s0) as [t Ht];
        destruct (for_each i f s0) as [[[]|e] s2]
    end; cbn [snd] in *; subst; [|discriminate].
    intros [= <-]. eexists. reflexivity. }
  destruct (negb force); [|exact Hmain].
  destruct (_vm_list s) as [l|] eqn:E; [|exact Hmain].
  intros [= <-]. eauto.
Qed.

End RefreshCalls.

(** C4: on a collection that holds no snapshot, two calls of
    [refresh_cache(force=False)] in sequence make exactly one call to the
    dispatcher, the listing call; and once the first call has returned,
    the second one changes nothing. *)
Theorem refresh_cache_twice_one_call :
  forall (daemon : list Call -> Call -> Result bytes) (s : State),
    _vm_list s = None ->
    calls (snd ((refresh_cache daemon false ;;
                 refresh_cache daemon false)%monad s))
    = calls s ++ [list_call]
    /\ forall s1, refresh_cache daemon false s = (Ok tt, s1) ->
                  refresh_cache daemon false s1 = (Ok tt, s1).
Proof.
  intros daemon s Hnone. split.
  - unfold bind at 1.
    pose proof (refresh_cache_one_call daemon false s (or_intror Hnone)) as Hc.
    destruct (refresh_cache daemon false s) as [[[]|e] s1] eqn:E;
      cbn [snd] in *; [|exact Hc].
    destruct (refresh_cache_returns_cached daemon false s s1 E) as [l Hl].
    rewrite (refresh_cache_cached daemon s1 l Hl). exact Hc.
  - intros s1 E.
    destruct (refresh_cache_returns_cached daemon false s s1 E) as [l Hl].
    exact (refresh_cache_cached daemon s1 l Hl).
Qed.

Lemma refresh_cache_twice_one_call_witness :
  calls (snd ((refresh_cache
                 (fun _ _ => Ok (b "work class=AppVM" ++ [x0a])) false ;;
               refresh_cache
                 (fun _ _ => Ok (b "work class=AppVM" ++ [x0a])) false)%monad
              init))
  = calls init ++ [list_call]
  /\ forall s1,
       refresh_cache (fun _ _ => Ok (b "work class=AppVM" ++ [x0a])) false init
       = (Ok tt, s1) ->
       refresh_cache (fun _ _ => Ok (b "work class=AppVM" ++ [x0a])) false s1
       = (Ok tt, s1).
Proof.
  apply (refresh_cache_twice_one_call
           (fun _ _ => Ok (b "work class=AppVM" ++ [x0a])) init).
  reflexivity.
Defined.

(** ** Splitting *)

Section SplitFacts.
Context {A : Type}.
Implicit Types (p : A -> bool) (s : list A).

Lemma split_not_nil : forall p m s, split p m s <> [].
Proof.
  intros p m s. revert m. induction s as [|c s IH]; intro m; cbn [split].
  - discriminate.
  - destruct (match m with Some 0%nat => false | _ => p c end);
      [discriminate|].
    destruct (split p m s); discriminate.
Qed.

Lemma split_zero : forall p s, split p (Some 0%nat) s = [s].
Proof.
  intros p. induction s as [|c s IH]; cbn [split]; [reflexivity|].
  rewrite IH. reflexivity.
Qed.

Lemma split_no_sep : forall p m s, existsb p s = false -> split p m s = [s].
Proof.
  intros p m. induction s as [|c s IH]; intro H; cbn [split]; [reflexivity|].
  cbn [existsb] in H. apply orb_false_iff in H as [Hc Hs].
  rewrite Hc, (IH Hs). destruct m as [[|n]|]; reflexivity.
Qed.

Lemma split_at_sep : forall p m a c r,
  existsb p a = false -> p c = true -> m <> Some 0%nat ->
  split p m (a ++ c :: r) = a :: split p (option_map Nat.pred m) r.
Proof.
  intros p m a c r Ha Hc Hm. induction a as [|x a IH]; cbn [app split].
  - rewrite Hc. destruct m as [[|n]|]; congruence.
  - cbn [existsb] in Ha. apply orb_false_iff in Ha as [Hx Ha].
    rewrite Hx, (IH Ha). destruct m as [[|n]|]; reflexivity.
Qed.

(** With [maxsplit = 1] the result has two parts exactly when the
    separator occurs. *)
Lemma split_once_two : forall p s x y,
  split p (Some 1%nat) s = [x; y] -> existsb p s = true.
Proof.
  intros p s x y H. destruct (existsb p s) eqn:E; [reflexivity|].
  rewrite (split_no_sep p _ s E) in H. discriminate.
Qed.

Lemma split_once_length : forall p s,
  split p (Some 1%nat) s = [s] /\ existsb p s = false
  \/ exists x y, split p (Some 1%nat) s = [x; y].
Proof.
  intros p. induction s as [|c s IH]; cbn [split existsb].
  - left. split; reflexivity.
  - destruct (p c) eqn:Hc; cbn [option_map Nat.pred orb].
    + right. rewrite split_zero. eauto.
    + destruct IH as [[-> E]|(x & y & ->)]; [left|right]; eauto.
Qed.

End SplitFacts.

Lemma split_map : forall (A B : Type) (f : A -> B) (p : B -> bool) m s,
  split p m (List.map f s)
  = List.map (List.map f) (split (fun x => p (f x)) m s).
Proof.
  intros A B f p m s. revert m.
  induction s as [|c s IH]; intro m; cbn [List.map split]; [reflexivity|].
  destruct (match m with Some 0%nat => false | _ => p (f c) end).
  - rewrite IH. reflexivity.
  - rewrite IH. destruct (split _ m s); reflexivity.
Qed.

Lemma decode_ascii_Ok : forall data text,
  decode_ascii data = Ok text -> text = List.map Byte.to_N data.
Proof.
  induction data as [|x data IH]; intros text; cbn [decode_ascii List.map].
  - intros [= <-]. reflexivity.
  - destruct (Byte.to_N x <? 128); [|discriminate].
    destruct (decode_ascii data) as [r|e]; cbn [rbind]; [|discriminate].
    intros [= <-]. rewrite (IH r eq_refl). reflexivity.
Qed.

Lemma decode_ascii_Raise : forall data e,
  decode_ascii data = Raise e -> e = UnicodeDecodeError.
Proof.
  induction data as [|x data IH]; intros e; cbn [decode_ascii].
  - discriminate.
  - destruct (Byte.to_N x <? 128); [|congruence].
    destruct (decode_ascii data) as [r|e']; cbn [rbind]; [discriminate|].
    intros [= <-]. auto.
Qed.

Lemma dict_of_lists_Raise : forall seq acc e,
  dict_of_lists seq acc = Raise e -> e = ValueError.
Proof.
  induction seq as [|l seq IH]; intros acc e; cbn [dict_of_lists].
  - discriminate.
  - destruct l as [|k [|v [|? ?]]]; try congruence. apply IH.
Qed.

Lemma dict_of_lists_Ok : forall seq acc d,
  dict_of_lists seq acc = Ok d ->
  Forall (fun l => exists k v, l = [k; v]) seq.
Proof.
  induction seq as [|l seq IH]; intros acc d; cbn [dict_of_lists].
  - constructor.
  - destruct l as [|k [|v [|? ?]]]; try discriminate.
    intro H. constructor; eauto.
Qed.

(** ** Parsing the listing *)

Lemma parse_error_is_ValueError : forall e,
  parse_error e -> is_ValueError e = true /\ is_ProtocolError e = false.
Proof. intros e [-> | ->]; split; reflexivity. Qed.

Lemma parse_vm_data_Raise : forall vm_data e,
  parse_vm_data vm_data = Raise e -> parse_error e.
Proof.
  intros vm_data e. unfold parse_vm_data.
  destruct (decode_ascii vm_data) as [line|e'] eqn:Ed; cbn [rbind].
  - destruct (str_split SPACE (Some 1%nat) line) as [|n [|props [|? ?]]];
      try (intros [= <-]; left; reflexivity).
    destruct (dict_of_lists _ []) as [d|e'] eqn:El; cbn [rbind];
      [discriminate|].
    intros [= <-]. left. exact (dict_of_lists_Raise _ _ _ El).
  - intros [= <-]. right. exact (decode_ascii_Raise _ _ Ed).
Qed.

Lemma existsb_map : forall (A B : Type) (f : A -> B) (p : B -> bool) l,
  existsb p (List.map f l) = existsb (fun x => p (f x)) l.
Proof.
  induction l as [|x l IH]; cbn [List.map existsb]; [reflexivity|].
  rewrite IH. reflexivity.
Qed.

(** A line that the parser accepts has the shape of the specification. *)
Lemma parse_vm_data_Ok_shape : forall vm_data r,
  parse_vm_data vm_data = Ok r -> has_shape vm_data = true.
Proof.
  intros vm_data r. unfold parse_vm_data, has_shape.
  destruct (decode_ascii vm_data) as [line|e] eqn:Ed; cbn [rbind];
    [|discriminate].
  apply decode_ascii_Ok in Ed. subst line.
  unfold str_split. rewrite split_map.
  change (fun x => is_char SPACE (Byte.to_N x)) with is_space_byte.
  destruct (split is_space_byte (Some 1%nat) vm_data)
    as [|bn [|bp [|? ?]]]; cbn [List.map]; try discriminate.
  rewrite split_map.
  change (fun x => is_char SPACE (Byte.to_N x)) with is_space_byte.
  destruct (dict_of_lists _ []) as [d|e] eqn:El; cbn [rbind]; [|discriminate].
  intros _. apply dict_of_lists_Ok in El.
  rewrite List.map_map in El. rewrite Forall_map in El.
  apply forallb_forall. intros tok Htok.
  rewrite Forall_forall in El. destruct (El tok Htok) as (k & v & Hkv).
  apply split_once_two in Hkv. rewrite existsb_map in Hkv. exact Hkv.
Qed.

Lemma parse_vm_lines_Raise : forall lines acc e,
  parse_vm_lines lines acc = Raise e -> parse_error e.
Proof.
  induction lines as [|l lines IH]; intros acc e; cbn [parse_vm_lines].
  - discriminate.
  - destruct (parse_vm_data l) as [nd|e'] eqn:El; cbn [rbind].
    + apply IH.
    + intros [= <-]. exact (parse_vm_data_Raise _ _ El).
Qed.

Lemma parse_vm_lines_Ok_shape : forall lines acc vl,
  parse_vm_lines lines acc = Ok vl ->
  forall line, In line lines -> has_shape line = true.
Proof.
  induction lines as [|l lines IH]; intros acc vl H line Hin;
    [destruct Hin|].
  cbn [parse_vm_lines] in H.
  destruct (parse_vm_data l) as [nd|e] eqn:El; cbn [rbind] in H;
    [|discriminate].
  destruct Hin as [<-|Hin].
  - exact (parse_vm_data_Ok_shape _ _ El).
  - exact (IH _ _ H line Hin).
Qed.

(** C7, as the specification words it, fails twice: a line without
    properties makes the refresh raise [ValueError], which is no
    [ProtocolError]; and a line without a class is accepted, the refresh
    returns and the name is listed. *)
Lemma malformed_line_no_ProtocolError :
  (fst (refresh_cache (fun _ _ => Ok (b "work" ++ [x0a])) false init)
   = Raise ValueError
   /\ is_ProtocolError ValueError = false)
  /\ fst ((refresh_cache (fun _ _ => Ok (b "work state=Running" ++ [x0a]))
             false ;;
           keys (fun _ _ => Ok (b "work state=Running" ++ [x0a])))%monad init)
     = Ok [u "work"].
Proof. repeat split; reflexivity. Qed.

(** C7 (amended): when a line of the payload violates the shape (a name,
    a space, key=value tokens separated by single spaces), a refresh that
    makes the call raises [ValueError] or its subclass
    [UnicodeDecodeError]; the line is not skipped, and the collection
    keeps the snapshot and the table it had, so the failure is not turned
    into an empty collection. *)
Theorem refresh_cache_malformed_line :
  forall (daemon : list Call -> Call -> Result bytes) (force : bool)
         (s : State) (vm_list_data line : bytes),
    force = true \/ _vm_list s = None ->
    daemon (calls s) list_call = Ok vm_list_data ->
    In line (bytes_splitlines vm_list_data) ->
    has_shape line = false ->
    exists e,
      refresh_cache daemon force s
      = (Raise e,
         {| calls := calls s ++ [list_call]; _vm_list := _vm_list s;
            _vm_objects := _vm_objects s; next_id := next_id s;
            _pool_drivers := _pool_drivers s |})
      /\ is_ValueError e = true /\ is_ProtocolError e = false.
Proof.
  intros daemon force s data line Hforce Hcall Hin Hshape.
  unfold refresh_cache, bind, get_state.
  assert (E : forall A (x y : A),
             match negb force, _vm_list s with
             | true, Some _ => x
             | _, _ => y
             end = y).
  { intros A x y. destruct Hforce as [->| ->]; [reflexivity|].
    destruct (negb force); reflexivity. }
  rewrite E. clear E.
  unfold qubesd_call. fold list_call. rewrite Hcall. unfold lift.
  destruct (parse_vm_list data) as [vl|e] eqn:Ep.
  - unfold parse_vm_list in Ep.
    rewrite (parse_vm_lines_Ok_shape _ _ _ Ep line Hin) in Hshape.
    discriminate.
  - exists e. split; [reflexivity|].
    apply parse_error_is_ValueError.
    exact (parse_vm_lines_Raise _ _ _ Ep).
Qed.

Lemma refresh_cache_malformed_line_witness :
  exists e,
    refresh_cache (fun _ _ => Ok (b "work" ++ [x0a])) false init
    = (Raise e,
       {| calls := calls init ++ [list_call]; _vm_list := _vm_list init;
          _vm_objects := _vm_objects init; next_id := next_id init;
          _pool_drivers := _pool_drivers init |})
    /\ is_ValueError e = true /\ is_ProtocolError e = false.
Proof.
  apply (refresh_cache_malformed_line
           (fun _ _ => Ok (b "work" ++ [x0a])) false init
           (b "work" ++ [x0a]) (b "work")).
  - right. reflexivity.
  - reflexivity.
  - left. reflexivity.
  - reflexivity.
Defined.

(** ** Empty listings *)

(** C9, as the specification words it, fails for the listing of domains:
    the payload made of one line terminator holds one empty line, which
    has no space, and the refresh raises [ValueError]. *)
Lemma vm_list_terminator_only_raises :
  fst (refresh_cache (fun _ _ => Ok [x0a]) false init) = Raise ValueError.
Proof. reflexivity. Qed.

(** C9 (amended): the listing of pool drivers made of one line terminator
    is parsed as the empty collection.  For the listing of domains the
    empty collection is the payload without any line: it gives the empty
    snapshot and no name, while the payload made of one line terminator
    raises [ValueError]. *)
Theorem empty_listings :
  forall (daemon : list Call -> Call -> Result bytes) (s : State),
    (_pool_drivers s = None ->
     daemon (calls s) drivers_call = Ok [x0a] ->
     pool_drivers daemon s
     = (Ok [],
        {| calls := calls s ++ [drivers_call]; _vm_list := _vm_list s;
           _vm_objects := _vm_objects s; next_id := next_id s;
           _pool_drivers := Some [] |}))
    /\ (forall force,
          force = true \/ _vm_list s = None ->
          dict_wf (_vm_objects s) ->
          daemon (calls s) list_call = Ok [] ->
          (refresh_cache daemon force ;; keys daemon)%monad s
          = (Ok [], refreshed [] s))
    /\ (forall force,
          force = true \/ _vm_list s = None ->
          daemon (calls s) list_call = Ok [x0a] ->
          fst (refresh_cache daemon force s) = Raise ValueError).
Proof.
  intros daemon s. split; [|split].
  - intros Hnone Hcall.
    unfold pool_drivers, _refresh_pool_drivers, bind, get_state.
    rewrite Hnone. unfold qubesd_call. fold drivers_call. rewrite Hcall.
    reflexivity.
  - intros force Hforce Hwf Hcall. unfold bind at 1.
    rewrite (refresh_cache_refreshed daemon force s [] []);
      [reflexivity|exact Hforce|exact Hcall|reflexivity| |exact Hwf].
    intros name props H. discriminate H.
  - intros force Hforce Hcall.
    unfold refresh_cache, bind, get_state.
    assert (E : forall A (x y : A),
               match negb force, _vm_list s with
               | true, Some _ => x
               | _, _ => y
               end = y).
    { intros A x y. destruct Hforce as [->| ->]; [reflexivity|].
      destruct (negb force); reflexivity. }
    rewrite E. unfold qubesd_call. fold list_call. rewrite Hcall.
    reflexivity.
Qed.

Lemma empty_listings_witness :
  pool_drivers (fun _ c => if str_eqb (call_method c) (u "mgmt.vm.List")
                           then Ok [] else Ok [x0a]) init
  = (Ok [],
     {| calls := calls init ++ [drivers_call]; _vm_list := _vm_list init;
        _vm_objects := _vm_objects init; next_id := next_id init;
        _pool_drivers := Some [] |})
  /\ (refresh_cache (fun _ c => if str_eqb (call_method c) (u "mgmt.vm.List")
                                then Ok [] else Ok [x0a]) false ;;
      keys (fun _ c => if str_eqb (call_method c) (u "mgmt.vm.List")
                       then Ok [] else Ok [x0a]))%monad init
     = (Ok [], refreshed [] init).
Proof.
  destruct (empty_listings
              (fun _ c => if str_eqb (call_method c) (u "mgmt.vm.List")
                          then Ok [] else Ok [x0a]) init) as (H1 & H2 & _).
  split.
  - apply H1; reflexivity.
  - apply (H2 false).
    + right. reflexivity.
    + constructor.
    + reflexivity.
Defined.

(** ** Well-formed listings *)

Lemma to_N_byte_of : forall c, c < 256 -> Byte.to_N (byte_of c) = c.
Proof.
  intros c Hc. unfold byte_of.
  destruct (Byte.of_N c) as [x|] eqn:E.
  - apply Byte.to_of_N. exact E.
  - apply Byte.of_N_None_iff in E. lia.
Qed.

Lemma name_char_spec : forall c,
  name_char c = true -> c < 128 /\ c <> 32 /\ c <> 10 /\ c <> 13.
Proof.
  intros c. unfold name_char. rewrite !andb_true_iff, !negb_true_iff.
  rewrite N.ltb_lt, !N.eqb_neq. tauto.
Qed.

Lemma key_char_spec : forall c,
  key_char c = true -> name_char c = true /\ c <> 61.
Proof.
  intros c. unfold key_char. rewrite andb_true_iff, negb_true_iff, N.eqb_neq.
  tauto.
Qed.

Lemma name_char_line_char : forall c, name_char c = true -> line_char c = true.
Proof.
  intros c H. apply name_char_spec in H as (H1 & _ & H3 & H4).
  unfold line_char. rewrite !andb_true_iff, !negb_true_iff.
  rewrite N.ltb_lt, !N.eqb_neq. tauto.
Qed.

Lemma forallb_impl : forall (A : Type) (p q : A -> bool) (l : list A),
  (forall x, p x = true -> q x = true) ->
  forallb p l = true -> forallb q l = true.
Proof.
  intros A p q l Hpq H. rewrite forallb_forall in *. auto.
Qed.

Lemma forallb_no_sep : forall (p : N -> bool) (c : N) (l : str),
  (forall x, p x = true -> x <> c) ->
  forallb p l = true -> existsb (is_char c) l = false.
Proof.
  intros p c l Hp H. induction l as [|x l IH]; [reflexivity|].
  cbn [forallb existsb] in *. apply andb_true_iff in H as [Hx Hl].
  rewrite (IH Hl). unfold is_char.
  destruct (N.eqb_spec x c) as [->|_]; [|reflexivity].
  exfalso. exact (Hp c Hx eq_refl).
Qed.

Lemma name_no_space : forall l,
  forallb name_char l = true -> existsb (is_char SPACE) l = false.
Proof.
  intro l. apply (forallb_no_sep name_char).
  intros x H. apply name_char_spec in H. tauto.
Qed.

Lemma key_no_equals : forall l,
  forallb key_char l = true -> existsb (is_char EQUALS) l = false.
Proof.
  intro l. apply (forallb_no_sep key_char).
  intros x H. apply key_char_spec in H. tauto.
Qed.

Lemma key_name_chars : forall l,
  forallb key_char l = true -> forallb name_char l = true.
Proof.
  intro l. apply forallb_impl.
  intros x H. apply key_char_spec in H. tauto.
Qed.

Lemma wf_property_spec : forall kv,
  wf_property kv = true ->
  forallb key_char (fst kv) = true /\ forallb name_char (snd kv) = true.
Proof. intros kv. unfold wf_property. apply andb_true_iff. Qed.

Lemma render_property_name_chars : forall kv,
  wf_property kv = true ->
  forallb (fun c => name_char c || (c =? 61)) (render_property kv) = true.
Proof.
  intros kv H. apply wf_property_spec in H as [Hk Hv].
  unfold render_property. rewrite !forallb_app. cbn [forallb].
  rewrite (forallb_impl _ name_char _ (fst kv)),
          (forallb_impl _ name_char _ (snd kv)); auto.
  - intros x Hx. rewrite Hx. reflexivity.
  - intros x Hx. rewrite Hx. reflexivity.
  - apply key_name_chars. exact Hk.
Qed.

Lemma token_line_char : forall c,
  name_char c || (c =? 61) = true -> line_char c = true.
Proof.
  intros c H. apply orb_true_iff in H as [H|H].
  - apply name_char_line_char. exact H.
  - apply N.eqb_eq in H. subst c. reflexivity.
Qed.

Lemma token_no_space : forall c,
  name_char c || (c =? 61) = true -> c <> SPACE.
Proof.
  intros c H. apply orb_true_iff in H as [H|H].
  - apply name_char_spec in H. tauto.
  - apply N.eqb_eq in H. subst c. discriminate.
Qed.

(** Splitting the joined tokens gives the tokens back. *)
Lemma split_join : forall (toks : list str),
  toks <> [] ->
  Forall (fun t => existsb (is_char SPACE) t = false) toks ->
  str_split SPACE None (join [SPACE] toks) = toks.
Proof.
  induction toks as [|t toks IH]; intros Hne Hall; [congruence|].
  inversion Hall as [|? ? Ht Htoks]; subst.
  destruct toks as [|t' toks].
  - cbn [join]. apply split_no_sep. exact Ht.
  - change (join [SPACE] (t :: t' :: toks))
      with (t ++ SPACE :: join [SPACE] (t' :: toks)).
    unfold str_split in *.
    rewrite split_at_sep;
      [|exact Ht|unfold is_char; apply N.eqb_refl|discriminate].
    cbn [option_map]. rewrite IH; [reflexivity|discriminate|exact Htoks].
Qed.

Lemma join_line_chars : forall (toks : list str),
  Forall (fun t => forallb line_char t = true) toks ->
  forallb line_char (join [SPACE] toks) = true.
Proof.
  induction toks as [|t toks IH]; intro H; [reflexivity|].
  inversion H as [|? ? Ht Htoks]; subst.
  destruct toks as [|t' toks]; [exact Ht|].
  change (join [SPACE] (t :: t' :: toks))
    with (t ++ SPACE :: join [SPACE] (t' :: toks)).
  rewrite forallb_app. cbn [forallb]. rewrite Ht, (IH Htoks). reflexivity.
Qed.

Lemma dict_of_lists_pairs : forall (props : list (str * str)) acc,
  dict_of_lists (List.map (fun kv => [fst kv; snd kv]) props) acc
  = Ok (fold_left (fun d kv => dict_set (fst kv) (snd kv) d) props acc).
Proof.
  induction props as [|[k v] props IH]; intro acc; [reflexivity|].
  cbn [List.map dict_of_lists fold_left fst snd]. apply IH.
Qed.

Lemma split_render_property : forall kv,
  wf_property kv = true ->
  str_split EQUALS (Some 1%nat) (render_property kv) = [fst kv; snd kv].
Proof.
  intros kv H. apply wf_property_spec in H as [Hk _].
  unfold str_split, render_property.
  change ([EQUALS] ++ snd kv) with (EQUALS :: snd kv).
  rewrite split_at_sep;
    [|apply key_no_equals; exact Hk|unfold is_char; apply N.eqb_refl
     |discriminate].
  cbn [option_map Nat.pred]. rewrite split_zero. reflexivity.
Qed.

Lemma decode_ascii_byte_of : forall (t : str),
  forallb line_char t = true ->
  decode_ascii (List.map byte_of t) = Ok t.
Proof.
  induction t as [|c t IH]; intro H; [reflexivity|].
  cbn [forallb] in H. apply andb_true_iff in H as [Hc Ht].
  unfold line_char in Hc. rewrite !andb_true_iff in Hc.
  destruct Hc as [[Hc _] _]. pose proof Hc as Hlt. apply N.ltb_lt in Hlt.
  cbn [List.map decode_ascii]. rewrite to_N_byte_of by lia.
  rewrite Hc, (IH Ht). reflexivity.
Qed.

Lemma wf_record_spec : forall r,
  wf_record r = true ->
  forallb name_char (fst r) = true
  /\ forallb wf_property (snd r) = true
  /\ existsb (fun kv => str_eqb (fst kv) (u "class")) (snd r) = true.
Proof.
  intros r. unfold wf_record. rewrite !andb_true_iff. tauto.
Qed.

Lemma render_record_line_chars : forall r,
  wf_record r = true -> forallb line_char (render_record r) = true.
Proof.
  intros r H. apply wf_record_spec in H as (Hn & Hp & _).
  unfold render_record. rewrite !forallb_app. cbn [forallb].
  rewrite (forallb_impl _ _ _ _ name_char_line_char Hn).
  rewrite join_line_chars; [reflexivity|].
  rewrite Forall_map. rewrite forallb_forall in Hp.
  apply Forall_forall. intros kv Hkv.
  apply (forallb_impl _ _ _ _ token_line_char).
  apply render_property_name_chars. auto.
Qed.

(** The parser reads a rendered record back. *)
Lemma parse_vm_data_render : forall r,
  wf_record r = true ->
  parse_vm_data (List.map byte_of (render_record r))
  = Ok (fst r, dict_of_items (snd r)).
Proof.
  intros r H. unfold parse_vm_data.
  rewrite decode_ascii_byte_of by (apply render_record_line_chars; exact H).
  apply wf_record_spec in H as (Hn & Hp & Hc).
  cbn [rbind]. unfold render_record, str_split at 1.
  change ([SPACE] ++ ?x) with (SPACE :: x).
  rewrite split_at_sep;
    [|apply name_no_space; exact Hn|unfold is_char; apply N.eqb_refl
     |discriminate].
  cbn [option_map Nat.pred]. rewrite split_zero.
  rewrite split_join.
  - rewrite List.map_map.
    rewrite (map_ext_in _ (fun kv => [fst kv; snd kv])).
    + rewrite dict_of_lists_pairs. reflexivity.
    + intros kv Hkv. apply split_render_property.
      rewrite forallb_forall in Hp. auto.
  - destruct (snd r); [discriminate Hc|discriminate].
  - rewrite Forall_map. apply Forall_forall. intros kv Hkv.
    rewrite forallb_forall in Hp.
    apply (forallb_no_sep (fun c => name_char c || (c =? 61))).
    + exact token_no_space.
    + apply render_property_name_chars. auto.
Qed.

Lemma bytes_splitlines_line : forall (line rest : bytes),
  forallb (fun x => negb (bytes_is_break x)) line = true ->
  bytes_splitlines (line ++ x0a :: rest) = line :: bytes_splitlines rest.
Proof.
  unfold bytes_splitlines. induction line as [|x line IH]; intros rest H.
  - cbn [app splitlines]. change (bytes_is_break x0a) with true.
    cbv beta iota. destruct rest as [|d rest']; reflexivity.
  - cbn [forallb] in H. apply andb_true_iff in H as [Hx Hl].
    apply negb_true_iff in Hx.
    cbn [app splitlines]. rewrite Hx, (IH rest Hl). reflexivity.
Qed.

Lemma line_char_no_break : forall (t : str),
  forallb line_char t = true ->
  forallb (fun x => negb (bytes_is_break x)) (List.map byte_of t) = true.
Proof.
  induction t as [|c t IH]; intro H; [reflexivity|].
  cbn [forallb] in H. apply andb_true_iff in H as [Hc Ht].
  cbn [List.map forallb]. rewrite (IH Ht), andb_true_r.
  unfold line_char in Hc. rewrite !andb_true_iff, !negb_true_iff in Hc.
  destruct Hc as [[Hlt H10] H13]. apply N.ltb_lt in Hlt.
  unfold bytes_is_break. rewrite to_N_byte_of by lia.
  rewrite H10, H13. reflexivity.
Qed.

Lemma bytes_splitlines_render : forall rs,
  forallb wf_record rs = true ->
  bytes_splitlines (render_listing rs)
  = List.map (fun r => List.map byte_of (render_record r)) rs.
Proof.
  induction rs as [|r rs IH]; intro H; [reflexivity|].
  cbn [forallb] in H. apply andb_true_iff in H as [Hr Hrs].
  unfold render_listing in *. cbn [List.map List.concat].
  rewrite <- app_assoc. cbn [app].
  rewrite bytes_splitlines_line.
  - rewrite (IH Hrs). reflexivity.
  - apply line_char_no_break. apply render_record_line_chars. exact Hr.
Qed.

Lemma parse_vm_lines_render : forall rs acc,
  forallb wf_record rs = true ->
  parse_vm_lines (List.map (fun r => List.map byte_of (render_record r)) rs) acc
  = Ok (fold_left (fun d kv => dict_set (fst kv) (snd kv) d)
                  (List.map (fun r => (fst r, dict_of_items (snd r))) rs) acc).
Proof.
  induction rs as [|r rs IH]; intros acc H; [reflexivity|].
  cbn [forallb] in H. apply andb_true_iff in H as [Hr Hrs].
  cbn [List.map parse_vm_lines fold_left].
  rewrite (parse_vm_data_render r Hr). cbn [rbind fst snd].
  apply IH. exact Hrs.
Qed.

(** The listing of well-formed records parses to their snapshot. *)
Lemma parse_vm_list_render : forall rs,
  forallb wf_record rs = true ->
  parse_vm_list (render_listing rs) = Ok (snapshot_of rs).
Proof.
  intros rs H. unfold parse_vm_list.
  rewrite (bytes_splitlines_render rs H).
  apply parse_vm_lines_render. exact H.
Qed.

Section DictOfItems.
Context {V : Type}.
Implicit Types (items : list (str * V)) (acc : dict V).

Lemma fold_set_keys : forall items acc k,
  In k (dict_keys (fold_left (fun d kv => dict_set (fst kv) (snd kv) d)
                             items acc))
  <-> In k (dict_keys acc) \/ In k (List.map fst items).
Proof.
  induction items as [|[k0 v0] items IH]; intros acc k;
    cbn [fold_left List.map fst snd].
  - cbn. tauto.
  - rewrite IH, In_dict_keys_set. cbn. intuition congruence.
Qed.

Lemma fold_set_get_notin : forall items acc k,
  ~ In k (List.map fst items) ->
  dict_get (fold_left (fun d kv => dict_set (fst kv) (snd kv) d) items acc) k
  = dict_get acc k.
Proof.
  induction items as [|[k0 v0] items IH]; intros acc k Hk;
    cbn [fold_left List.map fst snd] in *; [reflexivity|].
  cbn [In] in Hk. rewrite IH by tauto. apply dict_get_set_other. tauto.
Qed.

Lemma fold_set_get_In : forall items acc k v,
  NoDup (List.map fst items) -> In (k, v) items ->
  dict_get (fold_left (fun d kv => dict_set (fst kv) (snd kv) d) items acc) k
  = Some v.
Proof.
  induction items as [|[k0 v0] items IH]; intros acc k v Hnd Hin;
    [destruct Hin|].
  cbn [fold_left List.map fst snd] in *.
  inversion Hnd as [|? ? Hnotin Hnd']; subst.
  destruct Hin as [[= -> ->]|Hin].
  - rewrite fold_set_get_notin by exact Hnotin. apply dict_get_set_same.
  - apply IH; assumption.
Qed.

Lemma fold_set_get_origin : forall items acc k v,
  dict_get (fold_left (fun d kv => dict_set (fst kv) (snd kv) d) items acc) k
  = Some v ->
  dict_get acc k = Some v \/ In (k, v) items.
Proof.
  induction items as [|[k0 v0] items IH]; intros acc k v H;
    cbn [fold_left fst snd] in *; [left; exact H|].
  apply IH in H as [H|H]; [|right; right; exact H].
  rewrite dict_get_set in H.
  destruct (str_eqb_spec k0 k) as [->|_]; [|left; exact H].
  injection H as <-. right. left. reflexivity.
Qed.

Lemma dict_of_items_keys : forall items k,
  In k (dict_keys (dict_of_items items)) <-> In k (List.map fst items).
Proof.
  intros. unfold dict_of_items. rewrite fold_set_keys. cbn. tauto.
Qed.

End DictOfItems.

Lemma existsb_key_In : forall (V : Type) (c : str) (l : list (str * V)),
  existsb (fun kv => str_eqb (fst kv) c) l = true -> In c (List.map fst l).
Proof.
  intros V c l H. apply existsb_exists in H as ([k v] & Hin & Hk).
  cbn [fst] in Hk. destruct (str_eqb_spec k c) as [->|]; [|discriminate].
  apply (in_map fst) in Hin. exact Hin.
Qed.

Lemma snapshot_all_have_class : forall rs,
  forallb wf_record rs = true -> all_have_class (snapshot_of rs).
Proof.
  intros rs Hwf name props H. unfold snapshot_of, dict_of_items in H.
  apply fold_set_get_origin in H as [H|H]; [discriminate H|].
  apply in_map_iff in H as (r & [= <- <-] & Hr).
  rewrite forallb_forall in Hwf. specialize (Hwf r Hr).
  apply wf_record_spec in Hwf as (_ & _ & Hc).
  apply dict_contains_In. apply dict_of_items_keys.
  apply existsb_key_In. exact Hc.
Qed.

(** C3: when the listing call returns the payload of well-formed records
    (one line per record: the name, a space, the key=value tokens
    separated by single spaces, among them the class; every line ended
    by a line feed), [refresh_cache] followed by [keys()] returns the
    keys of the snapshot of these records, which are exactly the names of
    the payload, and the cached properties of a name are the dictionary
    of the tokens of its line. *)
Theorem refresh_cache_keys_roundtrip :
  forall (daemon : list Call -> Call -> Result bytes) (force : bool)
         (s : State) (rs : list (str * list (str * str))),
    force = true \/ _vm_list s = None ->
    dict_wf (_vm_objects s) ->
    forallb wf_record rs = true ->
    daemon (calls s) list_call = Ok (render_listing rs) ->
    (refresh_cache daemon force ;; keys daemon)%monad s
    = (Ok (dict_keys (snapshot_of rs)), refreshed (snapshot_of rs) s)
    /\ (forall name,
          In name (dict_keys (snapshot_of rs)) <-> In name (List.map fst rs))
    /\ (NoDup (List.map fst rs) ->
        forall name props,
          In (name, props) rs ->
          dict_get (snapshot_of rs) name = Some (dict_of_items props)).
Proof.
  intros daemon force s rs Hforce Hwf Hrs Hcall. split; [|split].
  - unfold bind at 1.
    rewrite (refresh_cache_refreshed daemon force s
               (render_listing rs) (snapshot_of rs));
      [reflexivity|exact Hforce|exact Hcall
       |apply parse_vm_list_render; exact Hrs
       |apply snapshot_all_have_class; exact Hrs|exact Hwf].
  - intro name. unfold snapshot_of. rewrite dict_of_items_keys.
    rewrite List.map_map. cbn [fst]. tauto.
  - intros Hnd name props Hin. unfold snapshot_of, dict_of_items.
    apply fold_set_get_In.
    + rewrite List.map_map. cbn [fst]. exact Hnd.
    + apply in_map_iff. exists (name, props). split; [reflexivity|exact Hin].
Qed.

Lemma refresh_cache_keys_roundtrip_witness :
  (refresh_cache
     (fun _ _ => Ok (b "work class=AppVM state=Running" ++ [x0a]
                       ++ b "dom0 class=AdminVM" ++ [x0a]))
     false ;;
   keys (fun _ _ => Ok (b "work class=AppVM state=Running" ++ [x0a]
                          ++ b "dom0 class=AdminVM" ++ [x0a])))%monad init
  = (Ok [u "work"; u "dom0"],
     refreshed
       [(u "work", [(u "class", u "AppVM"); (u "state", u "Running")]);
        (u "dom0", [(u "class", u "AdminVM")])] init).
Proof.
  apply (refresh_cache_keys_roundtrip
           (fun _ _ => Ok (b "work class=AppVM state=Running" ++ [x0a]
                             ++ b "dom0 class=AdminVM" ++ [x0a]))
           false init
           [(u "work", [(u "class", u "AppVM"); (u "state", u "Running")]);
            (u "dom0", [(u "class", u "AdminVM")])]).
  - right. reflexivity.
  - constructor.
  - reflexivity.
  - reflexivity.
Defined.

(** ** The order of the options of a pool *)

Lemma str_compare_refl : forall x, str_compare x x = Eq.
Proof.
  induction x as [|c x IH]; cbn [str_compare]; [reflexivity|].
  rewrite N.compare_refl. exact IH.
Qed.










Lemma insert_item_perm : forall x l, Permutation (insert_item x l) (x :: l).
Proof.
  intros x. induction l as [|y l IH]; cbn [insert_item]; [reflexivity|].
  destruct (item_leb x y); [reflexivity|].
  rewrite IH. apply perm_swap.
Qed.

Lemma sorted_perm : forall l, Permutation (sorted l) l.
Proof.
  induction l as [|x l IH]; cbn [sorted]; [reflexivity|].
  rewrite insert_item_perm, IH. reflexivity.
Qed.










(** ** The table after the reconciliation *)

(** The three outcomes of a step: the entry is deleted because the
    listing does not give its object its class under its live name; the
    object is stored under its live name and its old key deleted; or
    nothing changes because the object stands under its live name. *)
Lemma reconcile_table_cases : forall vl k0 v0 (t : dict VM),
  all_have_class vl ->
  (reconcile_table vl (k0, v0) t = dict_del k0 t /\ ~ listed vl v0)
  \/ (reconcile_table vl (k0, v0) t
      = dict_del k0 (dict_set (vm_name v0) v0 t)
      /\ k0 <> vm_name v0 /\ listed vl v0)
  \/ (reconcile_table vl (k0, v0) t = t /\ k0 = vm_name v0 /\ listed vl v0).
Proof.
  intros vl k0 v0 t Hcls. unfold reconcile_table, listed. cbn [fst snd].
  destruct (dict_get vl (vm_name v0)) as [props|] eqn:Evl.
  - specialize (Hcls _ _ Evl). unfold dict_contains in Hcls.
    destruct (dict_get props (u "class")) as [class|] eqn:Ec;
      [|discriminate].
    destruct (str_eqb_spec (vm_class v0) class) as [<-|Hne]; cbn [negb].
    + destruct (str_eqb_spec k0 (vm_name v0)) as [->|Hk]; cbn [negb].
      * right. right. eauto.
      * right. left. eauto.
    + left. split; [reflexivity|].
      intros (props' & [= <-] & H). congruence.
  - left. split; [reflexivity|]. intros (props' & H & _). discriminate.
Qed.

Lemma dict_get_rekey : forall (t : dict VM) k0 n v0 k,
  dict_get (dict_del k0 (dict_set n v0 t)) k
  = if str_eqb k0 k then None
    else if str_eqb n k then Some v0 else dict_get t k.
Proof. intros. rewrite dict_get_del, dict_get_set. reflexivity. Qed.

Lemma reconcile_inv_init : forall vl t, wf_table t -> reconcile_inv vl t t t.
Proof.
  intros vl t [Hwf Hinj]. repeat split.
  - exact Hwf.
  - intros k v H. left. apply dict_get_In. exact H.
  - intros k1 v1 k2 v2 H1 H2. apply Hinj; apply dict_get_In; assumption.
  - intros k v H. exists k. apply dict_get_In. exact H.
Qed.

Lemma reconcile_inv_step : forall vl t0 k0 v0 rest t,
  all_have_class vl ->
  NoDup (List.map fst ((k0, v0) :: rest)) ->
  inj_ids ((k0, v0) :: rest) ->
  In (k0, v0) t0 ->
  reconcile_inv vl t0 ((k0, v0) :: rest) t ->
  reconcile_inv vl t0 rest (reconcile_table vl (k0, v0) t).
Proof.
  intros vl t0 k0 v0 rest t Hcls Hnd Hinj Hin0 (Hwf & Hset & Hids & Hfrom).
  cbn [List.map fst] in Hnd. inversion Hnd as [|? ? Hk0 Hnd']; subst.
  (* the object of the head occurs nowhere in the rest *)
  assert (Hfresh : forall k' v', In (k', v') rest -> vm_id v' <> vm_id v0).
  { intros k' v' Hin Heq. apply Hk0.
    rewrite <- (Hinj k' v' k0 v0 (or_intror Hin) (or_introl eq_refl) Heq).
    apply (in_map fst) in Hin. exact Hin. }
  (* an entry under another key than the head is still to visit or settled *)
  assert (Hother : forall k v,
             k <> k0 -> dict_get t k = Some v ->
             (In (k, v) rest
              \/ (settled vl k v
                  /\ forall k' v', In (k', v') rest -> vm_id v' <> vm_id v))
             /\ vm_id v <> vm_id v0).
  { intros k v Hk Hget. destruct (Hset k v Hget) as [[Heq|Hin]|[Hs Hn]].
    - congruence.
    - split; [left; exact Hin|]. exact (Hfresh k v Hin).
    - split.
      + right. split; [exact Hs|]. intros k' v' Hin. apply (Hn k' v'). right. exact Hin.
      + intro Heq. apply (Hn k0 v0); [left; reflexivity|]. congruence. }
  destruct (reconcile_table_cases vl k0 v0 t Hcls)
    as [[-> Hnl]|[(-> & Hk & Hl)|(-> & Hk & Hl)]].
  - (* deleted *)
    repeat split.
    + apply dict_wf_del. exact Hwf.
    + intros k v. rewrite dict_get_del.
      destruct (str_eqb_spec k0 k) as [->|Hne]; [discriminate|].
      intro Hget. apply Hother; congruence.
    + intros k1 v1 k2 v2. rewrite !dict_get_del.
      destruct (str_eqb k0 k1); [discriminate|].
      destruct (str_eqb k0 k2); [discriminate|]. apply Hids.
    + intros k v. rewrite dict_get_del.
      destruct (str_eqb k0 k); [discriminate|]. apply Hfrom.
  - (* stored under its live name *)
    repeat split.
    + apply dict_wf_del, dict_wf_set. exact Hwf.
    + intros k v. rewrite dict_get_rekey.
      destruct (str_eqb_spec k0 k) as [->|Hne]; [discriminate|].
      destruct (str_eqb_spec (vm_name v0) k) as [<-|Hne'].
      * intros [= <-]. right. split; [split; [reflexivity|exact Hl]|].
        exact Hfresh.
      * intro Hget. apply Hother; congruence.
    + intros k1 v1 k2 v2. rewrite !dict_get_rekey.
      destruct (str_eqb_spec k0 k1) as [->|Hne1]; [discriminate|].
      destruct (str_eqb_spec k0 k2) as [->|Hne2]; [discriminate|].
      destruct (str_eqb_spec (vm_name v0) k1) as [<-|Hn1];
        destruct (str_eqb_spec (vm_name v0) k2) as [<-|Hn2];
        try congruence.
      * intros [= <-] Hget Heq. exfalso.
        apply (Hother k2 v2); congruence.
      * intros Hget [= <-] Heq. exfalso.
        apply (Hother k1 v1); congruence.
      * apply Hids.
    + intros k v. rewrite dict_get_rekey.
      destruct (str_eqb k0 k); [discriminate|].
      destruct (str_eqb (vm_name v0) k); [|apply Hfrom].
      intros [= <-]. eauto.
  - (* unchanged *)
    repeat split.
    + exact Hwf.
    + intros k v Hget. destruct (Hset k v Hget) as [[Heq|Hin]|[Hs Hn]].
      * injection Heq as <- <-. right.
        split; [split; [auto|rewrite Hk; exact Hl]|exact Hfresh].
      * left. exact Hin.
      * right. split; [exact Hs|].
        intros k' v' Hin. apply (Hn k' v'). right. exact Hin.
    + exact Hids.
    + exact Hfrom.
Qed.

Lemma reconcile_inv_fold : forall vl t0 rest t,
  all_have_class vl ->
  NoDup (List.map fst rest) ->
  inj_ids rest ->
  incl rest t0 ->
  reconcile_inv vl t0 rest t ->
  reconcile_inv vl t0 [] (reconcile_fold vl rest t).
Proof.
  intros vl t0 rest. induction rest as [|[k0 v0] rest IH];
    intros t Hcls Hnd Hinj Hincl Hinv; [exact Hinv|].
  cbn [reconcile_fold fold_left]. apply IH.
  - exact Hcls.
  - cbn [List.map] in Hnd. inversion Hnd; assumption.
  - intros k1 v1 k2 v2 H1 H2. apply (Hinj k1 v1 k2 v2); right; assumption.
  - intros x Hx. apply Hincl. right. exact Hx.
  - apply reconcile_inv_step; auto. apply Hincl. left. reflexivity.
Qed.

(** After a reconciliation that raised nothing, every wrapper of the
    table stands under its live name with the class that the listing
    gives to this name, the table is well formed, and its objects are
    objects of the table before. *)
Lemma reconcile_all_settled : forall vl t,
  all_have_class vl -> wf_table t ->
  wf_table (reconcile_all vl t)
  /\ (forall k v, In (k, v) (reconcile_all vl t) -> settled vl k v)
  /\ (forall k v, In (k, v) (reconcile_all vl t) -> exists k', In (k', v) t).
Proof.
  intros vl t Hcls Hwf.
  destruct (reconcile_inv_fold vl t t t Hcls) as (Hwf' & Hset & Hids & Hfrom).
  - apply Hwf.
  - apply Hwf.
  - apply incl_refl.
  - apply reconcile_inv_init. exact Hwf.
  - fold (reconcile_all vl t) in *. repeat split.
    + exact Hwf'.
    + intros k1 v1 k2 v2 H1 H2.
      apply Hids; apply In_dict_get; assumption.
    + apply In_dict_get in H; [|exact Hwf'].
      destruct (Hset k v H) as [[]|[[Hn _] _]]. exact Hn.
    + apply In_dict_get in H; [|exact Hwf'].
      destruct (Hset k v H) as [[]|[[_ Hl] _]]. exact Hl.
    + intros k v H. apply In_dict_get in H; [|exact Hwf']. eauto.
Qed.

(** The entry of a name whose wrapper agrees with the listing stays in
    place, as long as no other item carries this live name. *)
Lemma reconcile_fold_keeps : forall vl name o rest t,
  all_have_class vl -> listed vl o -> vm_name o = name ->
  (forall k v, In (k, v) rest ->
               (k = name -> v = o) /\ (vm_name v = name -> k = name)) ->
  dict_get t name = Some o ->
  dict_get (reconcile_fold vl rest t) name = Some o.
Proof.
  intros vl name o rest. induction rest as [|[k0 v0] rest IH];
    intros t Hcls Hl Hname Hrest Hget; [exact Hget|].
  cbn [reconcile_fold fold_left]. apply IH; auto.
  - intros k v Hin. apply Hrest. right. exact Hin.
  - destruct (Hrest k0 v0 (or_introl eq_refl)) as [Hk Hn].
    destruct (reconcile_table_cases vl k0 v0 t Hcls)
      as [[-> Hnl]|[(-> & Hne & _)|(-> & _)]]; [| |exact Hget].
    + rewrite dict_get_del_other; [exact Hget|].
      intros ->. apply Hnl. rewrite (Hk eq_refl). exact Hl.
    + rewrite dict_get_rekey.
      destruct (str_eqb_spec k0 name) as [->|_].
      * exfalso. apply Hne. rewrite (Hk eq_refl). auto.
      * destruct (str_eqb_spec (vm_name v0) name) as [E|_]; [|exact Hget].
        exfalso. apply Hne. rewrite (Hn E). auto.
Qed.


Lemma table_items_of_name : forall (t : dict VM) name o,
  dict_wf t -> dict_get t name = Some o ->
  (forall k v, In (k, v) t -> vm_name v = name -> k = name) ->
  forall k v, In (k, v) t ->
              (k = name -> v = o) /\ (vm_name v = name -> k = name).
Proof.
  intros t name o Hwf Hget Huniq k v Hin. split.
  - intros ->. apply (In_dict_get _ _ _ Hwf) in Hin. congruence.
  - apply Huniq. exact Hin.
Qed.

Lemma reconcile_all_keeps : forall vl (t : dict VM) name o,
  all_have_class vl -> dict_wf t ->
  dict_get t name = Some o -> vm_name o = name -> listed vl o ->
  (forall k v, In (k, v) t -> vm_name v = name -> k = name) ->
  dict_get (reconcile_all vl t) name = Some o.
Proof.
  intros vl t name o Hcls Hwf Hget Hname Hl Huniq.
  apply reconcile_fold_keeps; auto.
  apply table_items_of_name; assumption.
Qed.


(** ** Access to a wrapper object *)

Section GetItem.
Variable daemon : list Call -> Call -> Result bytes.
Variable get_entry_point_one : str -> str -> Result str.

(** [get(item)] when the refresh it starts with returns and the table
    holds a wrapper under the name: this wrapper is returned. *)
Lemma getitem_present : forall s s1 vl item o,
  refresh_cache daemon false s = (Ok tt, s1) ->
  _vm_list s1 = Some vl ->
  dict_contains item vl = true ->
  dict_get (_vm_objects s1) item = Some o ->
  getitem daemon get_entry_point_one item s = (Ok o, s1).
Proof.
  intros s s1 vl item o Hr Hvl Hin Hget.
  unfold getitem, contains, bind. rewrite Hr. unfold get_state.
  rewrite Hvl. unfold ret. rewrite Hin. cbn [negb].
  unfold dict_contains. rewrite Hget. cbn [negb]. rewrite Hget. reflexivity.
Qed.

(** [get(item)] when the table holds no wrapper under the name: a new
    object of the listed class is created, stored and returned. *)
Lemma getitem_new : forall s s1 vl item props class cls,
  refresh_cache daemon false s = (Ok tt, s1) ->
  _vm_list s1 = Some vl ->
  dict_get vl item = Some props ->
  dict_get props (u "class") = Some class ->
  get_entry_point_one (u "qubesmgmt.vm") class = Ok cls ->
  dict_get (_vm_objects s1) item = None ->
  getitem daemon get_entry_point_one item s
  = (Ok (mkVM (next_id s1) item cls),
     with_new_vm item (mkVM (next_id s1) item cls) s1).
Proof.
  intros s s1 vl item props class cls Hr Hvl Hitem Hclass Hcls Hget.
  unfold getitem, contains, bind. rewrite Hr. unfold get_state.
  rewrite Hvl. unfold ret, dict_contains. rewrite Hitem. cbn [negb].
  rewrite Hget. cbn [negb].
  unfold vm_list_class, bind, get_state. rewrite Hvl, Hitem, Hclass.
  unfold ret, lift. rewrite Hcls. unfold new_vm, modify.
  cbn [_vm_objects set_vm_objects]. rewrite dict_get_set_same. reflexivity.
Qed.

End GetItem.

Lemma In_dict_set : forall (V : Type) (t : dict V) n x k v,
  In (k, v) (dict_set n x t) -> (k = n /\ v = x) \/ In (k, v) t.
Proof.
  induction t as [|[k0 v0] t IH]; intros n x k v; cbn [dict_set].
  - intros [[= <- <-]|[]]. left. split; reflexivity.
  - destruct (str_eqb_spec k0 n) as [->|Hne].
    + intros [[= <- <-]|Hin]; [left; split; reflexivity|right; right; exact Hin].
    + intros [Heq|Hin]; [right; left; exact Heq|].
      destruct (IH _ _ _ _ Hin); [left|right; right]; assumption.
Qed.

(** C10, as it is stated, fails in its second part.  The listing still
    gives the name work the class AppVM, and the table is not touched by
    [clear_cache]; yet [get] of work returns another object after the
    invalidation than before it.  In the first state a second wrapper,
    stored under a, carries the live name work: the loop stores it under
    work in place of the first one.  In the second state the wrapper
    stored under work carries the live name gone, which the listing does
    not have: the loop deletes it and [get] creates a new object. *)
Lemma clear_cache_instance_replaced :
  (fst (getitem (fun _ _ => Ok (b "work class=AppVM" ++ [x0a]))
          (fun _ class => Ok class) (u "work")
          {| calls := [];
             _vm_list := Some [(u "work", [(u "class", u "AppVM")])];
             _vm_objects := [(u "work", mkVM 0 (u "work") (u "AppVM"));
                             (u "a", mkVM 1 (u "work") (u "AppVM"))];
             next_id := 2; _pool_drivers := None |})
   = Ok (mkVM 0 (u "work") (u "AppVM"))
   /\ fst ((clear_cache ;;
            getitem (fun _ _ => Ok (b "work class=AppVM" ++ [x0a]))
              (fun _ class => Ok class) (u "work"))%monad
             {| calls := [];
                _vm_list := Some [(u "work", [(u "class", u "AppVM")])];
                _vm_objects := [(u "work", mkVM 0 (u "work") (u "AppVM"));
                                (u "a", mkVM 1 (u "work") (u "AppVM"))];
                next_id := 2; _pool_drivers := None |})
      = Ok (mkVM 1 (u "work") (u "AppVM")))
  /\ (fst (getitem (fun _ _ => Ok (b "work class=AppVM" ++ [x0a]))
             (fun _ class => Ok class) (u "work")
             {| calls := [];
                _vm_list := Some [(u "work", [(u "class", u "AppVM")])];
                _vm_objects := [(u "work", mkVM 0 (u "gone") (u "AppVM"))];
                next_id := 1; _pool_drivers := None |})
      = Ok (mkVM 0 (u "gone") (u "AppVM"))
      /\ fst ((clear_cache ;;
               getitem (fun _ _ => Ok (b "work class=AppVM" ++ [x0a]))
                 (fun _ class => Ok class) (u "work"))%monad
                {| calls := [];
                   _vm_list := Some [(u "work", [(u "class", u "AppVM")])];
                   _vm_objects := [(u "work", mkVM 0 (u "gone") (u "AppVM"))];
                   next_id := 1; _pool_drivers := None |})
         = Ok (mkVM 1 (u "work") (u "AppVM"))).
Proof. repeat split; reflexivity. Qed.

(** C10 (amended): [clear_cache] resets the snapshot and nothing else, the
    table of wrapper objects in particular; and when the wrapper stored
    under the name still carries this name, no other wrapper of the table
    carries it, and the listing of the refresh that follows (a listing
    that gives every name a class) still gives the name the class of the
    wrapper, [get(name)] returns this very wrapper. *)
Theorem clear_cache_keeps_instances :
  forall (daemon : list Call -> Call -> Result bytes)
         (get_entry_point_one : str -> str -> Result str) (s : State),
    clear_cache s
    = (Ok tt,
       {| calls := calls s; _vm_list := None; _vm_objects := _vm_objects s;
          next_id := next_id s; _pool_drivers := _pool_drivers s |})
    /\ forall (name : str) (o : VM) (vm_list_data : bytes)
              (vl : dict (dict str)),
         dict_wf (_vm_objects s) ->
         dict_get (_vm_objects s) name = Some o ->
         vm_name o = name ->
         (forall k v, In (k, v) (_vm_objects s) -> vm_name v = name ->
                      k = name) ->
         daemon (calls s) list_call = Ok vm_list_data ->
         parse_vm_list vm_list_data = Ok vl ->
         all_have_class vl ->
         listed vl o ->
         (clear_cache ;; getitem daemon get_entry_point_one name)%monad s
         = (Ok o, refreshed vl s).
Proof.
  intros daemon entry_point s. split; [reflexivity|].
  intros name o data vl Hwf Hget Hname Huniq Hcall Hparse Hcls Hl.
  unfold bind at 1. cbn [clear_cache modify].
  apply (getitem_present daemon entry_point _ _ vl).
  - apply (refresh_cache_refreshed daemon false (set_vm_list None s) data vl);
      auto.
  - reflexivity.
  - destruct Hl as (props & Hp & _). unfold dict_contains.
    rewrite <- Hname, Hp. reflexivity.
  - cbn [_vm_objects refreshed]. apply reconcile_all_keeps; auto.
Qed.

Lemma clear_cache_keeps_instances_witness :
  (clear_cache ;;
   getitem (fun _ _ => Ok (b "work class=AppVM" ++ [x0a]))
           (fun _ class => Ok class) (u "work"))%monad
    {| calls := []; _vm_list := Some [(u "work", [(u "class", u "AppVM")])];
       _vm_objects := [(u "work", mkVM 0 (u "work") (u "AppVM"))];
       next_id := 1; _pool_drivers := None |}
  = (Ok (mkVM 0 (u "work") (u "AppVM")),
     refreshed [(u "work", [(u "class", u "AppVM")])]
       {| calls := []; _vm_list := Some [(u "work", [(u "class", u "AppVM")])];
          _vm_objects := [(u "work", mkVM 0 (u "work") (u "AppVM"))];
          next_id := 1; _pool_drivers := None |}).
Proof.
  destruct (clear_cache_keeps_instances
              (fun _ _ => Ok (b "work class=AppVM" ++ [x0a]))
              (fun _ class => Ok class)
              {| calls := [];
                 _vm_list := Some [(u "work", [(u "class", u "AppVM")])];
                 _vm_objects := [(u "work", mkVM 0 (u "work") (u "AppVM"))];
                 next_id := 1; _pool_drivers := None |}) as [_ H].
  apply (H (u "work") (mkVM 0 (u "work") (u "AppVM"))
           (b "work class=AppVM" ++ [x0a])).
  - repeat constructor. intros [].
  - reflexivity.
  - reflexivity.
  - intros k v [[= <- <-]|[]] _. reflexivity.
  - reflexivity.
  - reflexivity.
  - intros name props. cbn [dict_get].
    destruct (str_eqb (u "work") name); [|discriminate].
    intros [= <-]. reflexivity.
  - exists [(u "class", u "AppVM")]. split; reflexivity.
Defined.

(** ** Identity of the wrapper objects across refreshes *)



Lemma wf_state_init : wf_state init.
Proof.
  repeat split.
  - constructor.
  - intros k1 v1 k2 v2 [].
  - intros k v [].
Qed.

Lemma all_have_class_single : forall name class,
  all_have_class [(name, [(u "class", class)])].
Proof.
  intros name class n props. cbn [dict_get].
  destruct (str_eqb name n); [|discriminate].
  intros [= <-]. reflexivity.
Qed.


(** ** Renamed wrappers *)

(** C6 fails on the code.  The wrappers of the domains a and b are in the
    table; b has been renamed to c and then a to b, and the listing shows
    b and c with the unchanged class.  The loop stores the first wrapper
    under b and deletes the key a; the step of the second item then
    stores the second wrapper under c and deletes the key b, and with it
    the first wrapper: it is dropped, and [get] of b creates a new
    object. *)
Theorem reconcile_drops_renamed_wrapper :
  refresh_cache
    (fun _ _ => Ok (b "b class=AppVM" ++ [x0a] ++ b "c class=AppVM" ++ [x0a]))
    false
    {| calls := []; _vm_list := None;
       _vm_objects := [(u "a", mkVM 0 (u "b") (u "AppVM"));
                       (u "b", mkVM 1 (u "c") (u "AppVM"))];
       next_id := 2; _pool_drivers := None |}
  = (Ok tt,
     {| calls := [list_call];
        _vm_list := Some [(u "b", [(u "class", u "AppVM")]);
                          (u "c", [(u "class", u "AppVM")])];
        _vm_objects := [(u "c", mkVM 1 (u "c") (u "AppVM"))];
        next_id := 2; _pool_drivers := None |})
  /\ fst (getitem
            (fun _ _ => Ok (b "b class=AppVM" ++ [x0a]
                              ++ b "c class=AppVM" ++ [x0a]))
            (fun _ class => Ok class) (u "b")
            {| calls := []; _vm_list := None;
               _vm_objects := [(u "a", mkVM 0 (u "b") (u "AppVM"));
                               (u "b", mkVM 1 (u "c") (u "AppVM"))];
               next_id := 2; _pool_drivers := None |})
     = Ok (mkVM 2 (u "b") (u "AppVM")).
Proof. split; reflexivity. Qed.

(** Without such a later item the renamed wrapper stays under its new
    name: when no other item of the table stands under this name or
    carries it, the reconciliation leaves the wrapper there. *)
Lemma reconcile_all_rekeys : forall vl (t : dict VM) k0 o,
  all_have_class vl ->
  In (k0, o) t -> k0 <> vm_name o -> listed vl o ->
  (forall k v, In (k, v) t -> k = vm_name o \/ vm_name v = vm_name o ->
               (k, v) = (k0, o)) ->
  dict_get (reconcile_all vl t) (vm_name o) = Some o.
Proof.
  intros vl t k0 o Hcls Hin Hne Hl Halone. unfold reconcile_all.
  assert (Hgen : forall rest t',
             (forall k v, In (k, v) rest ->
                          k = vm_name o \/ vm_name v = vm_name o ->
                          (k, v) = (k0, o)) ->
             (In (k0, o) rest \/ dict_get t' (vm_name o) = Some o) ->
             dict_get (reconcile_fold vl rest t') (vm_name o) = Some o).
  { induction rest as [|[k v] rest IH]; intros t' Hrest Hcase.
    - destruct Hcase as [[]|H]. exact H.
    - cbn [reconcile_fold fold_left]. apply IH.
      + intros k' v' Hk'. apply Hrest. right. exact Hk'.
      + pose proof (Hrest k v (or_introl eq_refl)) as Hhead.
        destruct (str_eqb_spec (vm_name v) (vm_name o)) as [Ev|Hv].
        * (* the item of the wrapper itself *)
          injection (Hhead (or_intror Ev)) as -> ->. right.
          destruct (reconcile_table_cases vl k0 o t' Hcls)
            as [[_ Hnl]|[(-> & _)|(_ & Hk & _)]]; try contradiction.
          rewrite dict_get_rekey, (str_eqb_neq _ _ Hne), str_eqb_refl.
          reflexivity.
        * (* another item: it neither stands under the name nor takes it *)
          assert (Hk : k <> vm_name o).
          { intros ->. injection (Hhead (or_introl eq_refl)) as _ ->.
            congruence. }
          assert (Hsame : dict_get (reconcile_table vl (k, v) t') (vm_name o)
                          = dict_get t' (vm_name o)).
          { destruct (reconcile_table_cases vl k v t' Hcls)
              as [[-> _]|[(-> & _)|(-> & _)]]; [| |reflexivity].
            - apply dict_get_del_other. exact Hk.
            - rewrite dict_get_rekey, (str_eqb_neq _ _ Hk),
                (str_eqb_neq _ _ Hv). reflexivity. }
          rewrite Hsame.
          destruct Hcase as [[[= -> ->]|Hr]|Hg]; [congruence|auto|auto]. }
  apply Hgen; auto.
Qed.

(** ** Runs of the scenarios *)

Example refresh_get_twice_same_class :
  fst (refresh_get_twice (fun _ _ => Ok (b "work class=AppVM" ++ [x0a]))
         (fun _ class => Ok class) (u "work") init)
  = Ok (mkVM 0 (u "work") (u "AppVM"), mkVM 0 (u "work") (u "AppVM")).
Proof. reflexivity. Qed.

Example refresh_get_twice_class_changed :
  refresh_get_twice
    (fun log _ => match log with
                  | [] => Ok (b "work class=AppVM" ++ [x0a])
                  | _ => Ok (b "work class=StandaloneVM" ++ [x0a])
                  end)
    (fun _ class => Ok class) (u "work") init
  = (Ok (mkVM 0 (u "work") (u "AppVM"), mkVM 1 (u "work") (u "StandaloneVM")),
     {| calls := [list_call; list_call];
        _vm_list := Some [(u "work", [(u "class", u "StandaloneVM")])];
        _vm_objects := [(u "work", mkVM 1 (u "work") (u "StandaloneVM"))];
        next_id := 2; _pool_drivers := None |}).
Proof. reflexivity. Qed.

(** A rename that meets no other entry: the wrapper moves to its new
    name. *)
Example refresh_rekeys_renamed_wrapper :
  _vm_objects
    (snd (refresh_cache (fun _ _ => Ok (b "b class=AppVM" ++ [x0a])) false
            {| calls := []; _vm_list := None;
               _vm_objects := [(u "a", mkVM 0 (u "b") (u "AppVM"))];
               next_id := 1; _pool_drivers := None |}))
  = [(u "b", mkVM 0 (u "b") (u "AppVM"))].
Proof. reflexivity. Qed.

Example pool_drivers_listing :
  fst (pool_drivers
         (fun _ _ => Ok (b "file dir_path revisions_to_keep" ++ [x0a]
                           ++ b "lvm volume_group thin_pool" ++ [x0a])) init)
  = Ok [u "file"; u "lvm"].
Proof. reflexivity. Qed.

(** * Further properties *)

(** ** Access to names that are not listed *)

Section Accessors.
Variable daemon : list Call -> Call -> Result bytes.
Variable entry_point : str -> str -> Result str.

(** What a [get(item)] that returns leaves behind: a snapshot that lists
    the name and a table that holds the returned wrapper under it. *)
Lemma getitem_Ok_inv : forall item s o s1,
  getitem daemon entry_point item s = (Ok o, s1) ->
  exists vl, _vm_list s1 = Some vl
             /\ dict_contains item vl = true
             /\ dict_get (_vm_objects s1) item = Some o.
Proof.
  intros item s o s1. unfold getitem, contains, bind, get_state.
  destruct (refresh_cache daemon false s) as [[[]|e] s0]; [|discriminate].
  destruct (_vm_list s0) as [vl|] eqn:Evl; [|discriminate].
  unfold ret. destruct (dict_contains item vl) eqn:Ein; cbn [negb];
    [|discriminate].
  destruct (dict_contains item (_vm_objects s0)) eqn:Eobj; cbn [negb].
  - destruct (dict_get (_vm_objects s0) item) as [vm|] eqn:Eget;
      [|discriminate].
    intros [= <- <-]. eauto.
  - unfold vm_list_class, bind, get_state. rewrite Evl.
    destruct (dict_get vl item) as [props|]; [|discriminate].
    destruct (dict_get props (u "class")) as [class|]; [|discriminate].
    unfold ret, lift.
    destruct (entry_point (u "qubesmgmt.vm") class) as [cls|e];
      [|discriminate].
    unfold new_vm, modify. cbn [_vm_objects set_vm_objects].
    rewrite dict_get_set_same. intros [= <- <-].
    exists vl. cbn [_vm_list _vm_objects set_vm_objects].
    rewrite dict_get_set_same. auto.
Qed.

(** X1: when the snapshot in force after the refresh does not list the
    name, [item in collection] is false and [collection[item]] raises
    [KeyError(item)]; no wrapper is created. *)
Theorem getitem_unlisted_name :
  forall (item : str) (s s1 : State) (vl : dict (dict str)),
    refresh_cache daemon false s = (Ok tt, s1) ->
    _vm_list s1 = Some vl ->
    dict_get vl item = None ->
    contains daemon item s = (Ok false, s1)
    /\ getitem daemon entry_point item s = (Raise (KeyError item), s1).
Proof.
  intros item s s1 vl Hr Hvl Hget.
  unfold getitem, contains, bind, get_state. rewrite Hr, Hvl.
  unfold ret, dict_contains. rewrite Hget. split; reflexivity.
Qed.

(** X2: a second [collection[item]] returns the instance of the first one,
    makes no call and changes nothing. *)
Theorem getitem_twice_same_instance :
  forall (item : str) (s s1 : State) (o : VM),
    getitem daemon entry_point item s = (Ok o, s1) ->
    getitem daemon entry_point item s1 = (Ok o, s1).
Proof.
  intros item s s1 o H.
  destruct (getitem_Ok_inv item s o s1 H) as (vl & Hvl & Hin & Hget).
  apply (getitem_present daemon entry_point s1 s1 vl); auto.
  apply (refresh_cache_cached daemon s1 vl Hvl).
Qed.

End Accessors.

Lemma getitem_unlisted_name_witness :
  contains (fun _ _ => Ok (b "work class=AppVM" ++ [x0a])) (u "other") init
  = (Ok false, refreshed [(u "work", [(u "class", u "AppVM")])] init)
  /\ getitem (fun _ _ => Ok (b "work class=AppVM" ++ [x0a]))
             (fun _ class => Ok class) (u "other") init
     = (Raise (KeyError (u "other")),
        refreshed [(u "work", [(u "class", u "AppVM")])] init).
Proof.
  apply (getitem_unlisted_name
           (fun _ _ => Ok (b "work class=AppVM" ++ [x0a]))
           (fun _ class => Ok class) (u "other") init
           (refreshed [(u "work", [(u "class", u "AppVM")])] init)
           [(u "work", [(u "class", u "AppVM")])]); reflexivity.
Defined.

Lemma getitem_twice_same_instance_witness :
  getitem (fun _ _ => Ok (b "work class=AppVM" ++ [x0a]))
          (fun _ class => Ok class) (u "work")
          (with_new_vm (u "work") (mkVM 0 (u "work") (u "AppVM"))
             (refreshed [(u "work", [(u "class", u "AppVM")])] init))
  = (Ok (mkVM 0 (u "work") (u "AppVM")),
     with_new_vm (u "work") (mkVM 0 (u "work") (u "AppVM"))
       (refreshed [(u "work", [(u "class", u "AppVM")])] init)).
Proof.
  apply (getitem_twice_same_instance
           (fun _ _ => Ok (b "work class=AppVM" ++ [x0a]))
           (fun _ class => Ok class) (u "work") init).
  reflexivity.
Defined.

(** ** What the methods leave alone *)

Lemma keeps_bind : forall (A B X : Type) (field : State -> X)
                          (m : M A) (k : A -> M B),
  keeps field m -> (forall a, keeps field (k a)) -> keeps field (bind m k).
Proof.
  intros A B X field m k Hm Hk s. unfold bind.
  specialize (Hm s). destruct (m s) as [[a|e] s1]; cbn [snd] in *.
  - rewrite (Hk a s1). exact Hm.
  - exact Hm.
Qed.

Lemma keeps_ret : forall (A X : Type) (field : State -> X) (a : A),
  keeps field (ret a).
Proof. intros A X field a s. reflexivity. Qed.

Lemma keeps_raise : forall (A X : Type) (field : State -> X) e,
  keeps field (@raise A e).
Proof. intros A X field e s. reflexivity. Qed.

Lemma keeps_lift : forall (A X : Type) (field : State -> X) (r : Result A),
  keeps field (lift r).
Proof. intros A X field r s. reflexivity. Qed.

Lemma keeps_get_state : forall (X : Type) (field : State -> X),
  keeps field get_state.
Proof. intros X field s. reflexivity. Qed.

Lemma keeps_collect : forall (A B X : Type) (field : State -> X)
                             (xs : list A) (f : A -> M B),
  (forall x, keeps field (f x)) -> keeps field (collect xs f).
Proof.
  intros A B X field xs f Hf. induction xs as [|x xs IH]; cbn [collect].
  - apply keeps_ret.
  - apply keeps_bind; [apply Hf|]. intro y.
    apply keeps_bind; [exact IH|]. intro ys. apply keeps_ret.
Qed.

(** [keeps_auto tac] splits a goal [keeps field m] along the binds and
    the case analyses of [m]; [tac] closes the calls of other methods. *)
Ltac keeps_auto tac :=
  repeat first
    [ tac
    | apply keeps_ret | apply keeps_raise | apply keeps_lift
    | apply keeps_get_state
    | apply keeps_bind; [|intro]
    | match goal with
      | |- keeps _ (match ?x with _ => _ end) => destruct x
      end ].

Section Frames.
Variable daemon : list Call -> Call -> Result bytes.
Variable entry_point : str -> str -> Result str.

Lemma refresh_cache_keeps_pool_drivers : forall force,
  keeps _pool_drivers (refresh_cache daemon force).
Proof.
  intros force s. unfold refresh_cache, bind, get_state.
  assert (Hmain :
    _pool_drivers
      (snd ((vm_list_data <- qubesd_call daemon (u "dom0") (u "mgmt.vm.List")
                               None None ;;
             new_vm_list <- lift (parse_vm_list vm_list_data) ;;
             modify (set_vm_list (Some new_vm_list)) ;;
             s' <- get_state ;;
             for_each (_vm_objects s') (reconcile new_vm_list))%monad s))
    = _pool_drivers s).
  { unfold bind, qubesd_call, lift, modify, get_state.
    destruct (daemon (calls s) _) as [data|e]; [|reflexivity].
    destruct (parse_vm_list data) as [vl|e]; [|reflexivity].
    cbn [_vm_objects set_vm_list].
    match goal with
    | |- context [for_each ?i ?f ?s0] =>
        destruct (for_each_reconcile_frame vl i s0) as [t Ht];
        destruct (for_each i f s0) as [[[]|e] s2]
    end; cbn [snd] in *; subst; reflexivity. }
  destruct (negb force); [|exact Hmain].
  destruct (_vm_list s); [reflexivity|exact Hmain].
Qed.

Lemma getitem_keeps_pool_drivers : forall item,
  keeps _pool_drivers (getitem daemon entry_point item).
Proof.
  intro item. unfold getitem, contains, vm_list_class.
  keeps_auto ltac:(apply refresh_cache_keeps_pool_drivers);
    intro s; reflexivity.
Qed.

Lemma qubesd_call_keeps : forall (X : Type) (field : State -> X)
                                 dest method arg payload,
  (forall s c, field (with_call c s) = field s) ->
  keeps field (qubesd_call daemon dest method arg payload).
Proof.
  intros X field dest method arg payload H s. unfold qubesd_call. cbn [snd].
  apply (H s).
Qed.

Lemma _refresh_pool_drivers_keeps : forall (X : Type) (field : State -> X),
  (forall s c, field (with_call c s) = field s) ->
  (forall s p, field (set_pool_drivers p s) = field s) ->
  keeps field (_refresh_pool_drivers daemon).
Proof.
  intros X field Hc Hp. unfold _refresh_pool_drivers.
  keeps_auto ltac:(apply qubesd_call_keeps; exact Hc).
  intro s. apply Hp.
Qed.

Lemma _refresh_pool_drivers_keeps_domains :
  keeps_domains (_refresh_pool_drivers daemon).
Proof.
  split; [|split]; apply _refresh_pool_drivers_keeps; reflexivity.
Qed.

(** X3: the methods of the collection of domains never touch the cache of
    pool drivers, and the methods of the pools never touch the snapshot,
    the table of wrappers or the allocator, whatever their outcome. *)
Theorem collection_and_pools_are_independent :
  ((forall force, keeps _pool_drivers (refresh_cache daemon force))
   /\ keeps _pool_drivers clear_cache
   /\ (forall item, keeps _pool_drivers (contains daemon item))
   /\ keeps _pool_drivers (keys daemon)
   /\ (forall item, keeps _pool_drivers (getitem daemon entry_point item))
   /\ keeps _pool_drivers (iter daemon entry_point))
  /\ (keeps_domains (_refresh_pool_drivers daemon)
      /\ keeps_domains (pool_drivers daemon)
      /\ (forall driver, keeps_domains (pool_driver_parameters daemon driver))
      /\ (forall name driver kwargs,
            keeps_domains (add_pool daemon name driver kwargs))
      /\ (forall name, keeps_domains (remove_pool daemon name))).
Proof.
  split.
  - split; [apply refresh_cache_keeps_pool_drivers|].
    split; [intro s; reflexivity|].
    split.
    { intro item. unfold contains.
      keeps_auto ltac:(apply refresh_cache_keeps_pool_drivers). }
    split.
    { unfold keys. keeps_auto ltac:(apply refresh_cache_keeps_pool_drivers). }
    split; [apply getitem_keeps_pool_drivers|].
    unfold iter.
    keeps_auto ltac:(first [ apply refresh_cache_keeps_pool_drivers
                           | apply keeps_collect;
                             apply getitem_keeps_pool_drivers ]).
  - assert (Hcall : forall (X : Type) (field : State -> X) dest method arg
                           payload,
               (forall s c, field (with_call c s) = field s) ->
               keeps field (qubesd_call daemon dest method arg payload))
      by (intros; apply qubesd_call_keeps; assumption).
    split; [apply _refresh_pool_drivers_keeps_domains|].
    split.
    { unfold pool_drivers. split; [|split];
        keeps_auto ltac:(apply _refresh_pool_drivers_keeps; reflexivity). }
    split.
    { intro driver. unfold pool_driver_parameters. split; [|split];
        keeps_auto ltac:(apply _refresh_pool_drivers_keeps; reflexivity). }
    split.
    { intros name driver kwargs. unfold add_pool. split; [|split];
        keeps_auto ltac:(apply Hcall; reflexivity). }
    intro name. unfold remove_pool. split; [|split];
      keeps_auto ltac:(apply Hcall; reflexivity).
Qed.

End Frames.

(** ** Calls made by the accessors *)

Section AccessorCalls.
Variable daemon : list Call -> Call -> Result bytes.
Variable entry_point : str -> str -> Result str.

(** On a collection that holds a snapshot, [get(item)] makes no call and
    keeps the snapshot, whatever its outcome. *)
Lemma getitem_cached_frame : forall item s l,
  _vm_list s = Some l ->
  calls (snd (getitem daemon entry_point item s)) = calls s
  /\ _vm_list (snd (getitem daemon entry_point item s)) = Some l.
Proof.
  intros item s l Hl. unfold getitem, contains, bind, get_state.
  rewrite (refresh_cache_cached daemon s l Hl), Hl. unfold ret.
  destruct (dict_contains item l); cbn [negb]; [|split; [reflexivity|exact Hl]].
  destruct (dict_contains item (_vm_objects s)); cbn [negb].
  - destruct (dict_get (_vm_objects s) item);
      split; first [reflexivity | exact Hl].
  - unfold vm_list_class, bind, get_state. rewrite Hl.
    destruct (dict_get l item) as [props|]; [|split; [reflexivity|exact Hl]].
    destruct (dict_get props (u "class")) as [class|];
      [|split; [reflexivity|exact Hl]].
    unfold ret, lift.
    destruct (entry_point (u "qubesmgmt.vm") class) as [cls|e];
      [|split; [reflexivity|exact Hl]].
    unfold new_vm, modify. cbn [_vm_objects set_vm_objects].
    rewrite dict_get_set_same. split; [reflexivity|exact Hl].
Qed.

Lemma collect_getitem_cached_frame : forall names s l,
  _vm_list s = Some l ->
  calls (snd (collect names (getitem daemon entry_point) s)) = calls s
  /\ _vm_list (snd (collect names (getitem daemon entry_point) s)) = Some l.
Proof.
  induction names as [|n names IH]; intros s l Hl; cbn [collect].
  - split; [reflexivity|exact Hl].
  - unfold bind.
    destruct (getitem_cached_frame n s l Hl) as [Hc Hv].
    destruct (getitem daemon entry_point n s) as [[vm|e] s1];
      cbn [snd] in *; [|split; assumption].
    destruct (IH s1 l Hv) as [Hc' Hv'].
    destruct (collect names (getitem daemon entry_point) s1) as [[vms|e] s2];
      unfold ret; cbn [snd] in *; split; congruence.
Qed.

(** The four accessors on a collection that holds a snapshot. *)
Lemma accessors_cached_calls : forall item s l,
  _vm_list s = Some l ->
  calls (snd (contains daemon item s)) = calls s
  /\ calls (snd (keys daemon s)) = calls s
  /\ calls (snd (getitem daemon entry_point item s)) = calls s
  /\ calls (snd (iter daemon entry_point s)) = calls s.
Proof.
  intros item s l Hl. split; [|split; [|split]].
  - unfold contains, bind, get_state.
    rewrite (refresh_cache_cached daemon s l Hl), Hl. reflexivity.
  - unfold keys, bind, get_state.
    rewrite (refresh_cache_cached daemon s l Hl), Hl. reflexivity.
  - apply (getitem_cached_frame item s l Hl).
  - unfold iter, bind, get_state.
    rewrite (refresh_cache_cached daemon s l Hl), Hl.
    apply (collect_getitem_cached_frame _ s l Hl).
Qed.

(** An accessor starts with the refresh: it goes on from the state the
    refresh leaves, or stops with its exception. *)
Lemma accessors_after_refresh : forall item s r s1,
  refresh_cache daemon false s = (r, s1) ->
  match r with
  | Ok _ =>
      contains daemon item s = contains daemon item s1
      /\ keys daemon s = keys daemon s1
      /\ getitem daemon entry_point item s
         = getitem daemon entry_point item s1
      /\ iter daemon entry_point s = iter daemon entry_point s1
  | Raise e =>
      contains daemon item s = (Raise e, s1)
      /\ keys daemon s = (Raise e, s1)
      /\ getitem daemon entry_point item s = (Raise e, s1)
      /\ iter daemon entry_point s = (Raise e, s1)
  end.
Proof.
  intros item s r s1 Hr. destruct r as [[]|e].
  - destruct (refresh_cache_returns_cached daemon false s s1 Hr) as [l Hl].
    pose proof (refresh_cache_cached daemon s1 l Hl) as Hr1.
    unfold contains, keys, getitem, iter, contains, bind.
    rewrite Hr, Hr1. auto.
  - unfold contains, keys, getitem, iter, contains, bind.
    rewrite Hr. auto.
Qed.

(** X4: whatever their outcome, [item in collection], [keys()],
    [collection[item]] and a complete iteration make no call to the
    dispatcher when the collection holds a snapshot, and exactly one, the
    listing call, when it holds none; an iteration in particular makes
    no call per name. *)
Theorem accessors_call_count :
  forall (item : str) (s : State),
    (forall l, _vm_list s = Some l ->
       calls (snd (contains daemon item s)) = calls s
       /\ calls (snd (keys daemon s)) = calls s
       /\ calls (snd (getitem daemon entry_point item s)) = calls s
       /\ calls (snd (iter daemon entry_point s)) = calls s)
    /\ (_vm_list s = None ->
        calls (snd (contains daemon item s)) = calls s ++ [list_call]
        /\ calls (snd (keys daemon s)) = calls s ++ [list_call]
        /\ calls (snd (getitem daemon entry_point item s))
           = calls s ++ [list_call]
        /\ calls (snd (iter daemon entry_point s)) = calls s ++ [list_call]).
Proof.
  intros item s. split; [apply accessors_cached_calls|].
  intro Hnone.
  pose proof (refresh_cache_one_call daemon false s (or_intror Hnone)) as Hc.
  destruct (refresh_cache daemon false s) as [r s1] eqn:Hr. cbn [snd] in Hc.
  pose proof (accessors_after_refresh item s r s1 Hr) as H.
  destruct r as [[]|e]; destruct H as (-> & -> & -> & ->).
  - destruct (refresh_cache_returns_cached daemon false s s1 Hr) as [l Hl].
    rewrite <- Hc. apply (accessors_cached_calls item s1 l Hl).
  - cbn [snd]. auto.
Qed.

(** X5: when the dispatcher raises, a refresh that makes the call raises
    the same exception and keeps the snapshot and the table it had.  On a
    collection without snapshot every accessor raises it too and the
    collection stays without snapshot; after a failed forced refresh the
    old snapshot is still the one that [keys()] answers from. *)
Theorem dispatcher_failure_propagates :
  forall (item : str) (s : State) (e : exception),
    daemon (calls s) list_call = Raise e ->
    (forall force, force = true \/ _vm_list s = None ->
       refresh_cache daemon force s = (Raise e, with_call list_call s))
    /\ (_vm_list s = None ->
        contains daemon item s = (Raise e, with_call list_call s)
        /\ keys daemon s = (Raise e, with_call list_call s)
        /\ getitem daemon entry_point item s
           = (Raise e, with_call list_call s)
        /\ iter daemon entry_point s = (Raise e, with_call list_call s))
    /\ (forall l, _vm_list s = Some l ->
        (refresh_cache daemon true ;; keys daemon)%monad s
        = (Raise e, with_call list_call s)
        /\ keys daemon (with_call list_call s)
           = (Ok (dict_keys l), with_call list_call s)).
Proof.
  intros item s e Hcall.
  assert (Hr : forall force, force = true \/ _vm_list s = None ->
             refresh_cache daemon force s = (Raise e, with_call list_call s)).
  { intros force Hforce. unfold refresh_cache, bind, get_state.
    assert (E : forall A (x y : A),
               match negb force, _vm_list s with
               | true, Some _ => x
               | _, _ => y
               end = y).
    { intros A x y. destruct Hforce as [->| ->]; [reflexivity|].
      destruct (negb force); reflexivity. }
    rewrite E. unfold qubesd_call. fold list_call. rewrite Hcall.
    reflexivity. }
  split; [exact Hr|]. split.
  - intro Hnone.
    exact (accessors_after_refresh item s (Raise e) _
             (Hr false (or_intror Hnone))).
  - intros l Hl. split.
    + unfold bind. rewrite (Hr true (or_introl eq_refl)). reflexivity.
    + unfold keys, bind, get_state.
      rewrite (refresh_cache_cached daemon (with_call list_call s) l Hl).
      cbn [_vm_list with_call]. rewrite Hl. reflexivity.
Qed.

End AccessorCalls.

Lemma dispatcher_failure_propagates_witness :
  getitem (fun _ _ => Raise IOError) (fun _ class => Ok class) (u "work") init
  = (Raise IOError, with_call list_call init).
Proof.
  destruct (dispatcher_failure_propagates
              (fun _ _ => Raise IOError) (fun _ class => Ok class)
              (u "work") init IOError eq_refl) as (_ & H & _).
  apply H. reflexivity.
Defined.

Lemma accessors_call_count_witness :
  calls (snd (iter (fun _ _ => Ok (b "work class=AppVM" ++ [x0a]
                                     ++ b "dom0 class=AdminVM" ++ [x0a]))
                (fun _ class => Ok class) init))
  = calls init ++ [list_call].
Proof.
  destruct (accessors_call_count
              (fun _ _ => Ok (b "work class=AppVM" ++ [x0a]
                                ++ b "dom0 class=AdminVM" ++ [x0a]))
              (fun _ class => Ok class) (u "work") init) as [_ H].
  apply H. reflexivity.
Defined.

(** ** The table after a refresh *)

Lemma wf_state_refreshed : forall vl s,
  all_have_class vl -> wf_state s -> settled_state vl (refreshed vl s).
Proof.
  intros vl s Hcls [Hwf Hlt].
  destruct (reconcile_all_settled vl (_vm_objects s) Hcls Hwf)
    as (Hwf' & Hset & Hfrom).
  split; [reflexivity|]. split; [|exact Hset].
  split; [exact Hwf'|].
  intros k v Hin. cbn [_vm_objects next_id refreshed] in *.
  destruct (Hfrom k v Hin) as [k' Hk']. exact (Hlt k' v Hk').
Qed.

(** X6: a refresh that makes the call on a well-formed collection, with a
    listing that gives every name a class, returns and leaves a
    well-formed state in which every wrapper of the table stands under
    its live name, a name of the new snapshot with the class of the
    wrapper; it creates no wrapper. *)
Theorem refresh_cache_settles :
  forall (daemon : list Call -> Call -> Result bytes) (force : bool)
         (s : State) (vm_list_data : bytes) (vl : dict (dict str)),
    force = true \/ _vm_list s = None ->
    daemon (calls s) list_call = Ok vm_list_data ->
    parse_vm_list vm_list_data = Ok vl ->
    all_have_class vl ->
    wf_state s ->
    exists s',
      refresh_cache daemon force s = (Ok tt, s')
      /\ settled_state vl s'
      /\ next_id s' = next_id s
      /\ forall k v, In (k, v) (_vm_objects s') ->
                     exists k', In (k', v) (_vm_objects s).
Proof.
  intros daemon force s data vl Hforce Hcall Hparse Hcls Hwf.
  exists (refreshed vl s).
  split; [apply (refresh_cache_refreshed daemon force s data vl); auto;
          apply Hwf|].
  split; [apply wf_state_refreshed; assumption|].
  split; [reflexivity|].
  destruct Hwf as [Hwf _].
  apply (reconcile_all_settled vl (_vm_objects s) Hcls Hwf).
Qed.

Lemma refresh_cache_settles_witness :
  exists s',
    refresh_cache (fun _ _ => Ok (b "b class=AppVM" ++ [x0a])) true
      {| calls := []; _vm_list := None;
         _vm_objects := [(u "a", mkVM 0 (u "b") (u "AppVM"));
                         (u "gone", mkVM 1 (u "gone") (u "AppVM"))];
         next_id := 2; _pool_drivers := None |}
    = (Ok tt, s')
    /\ settled_state [(u "b", [(u "class", u "AppVM")])] s'
    /\ next_id s' = 2%nat
    /\ forall k v, In (k, v) (_vm_objects s') ->
                   exists k', In (k', v) [(u "a", mkVM 0 (u "b") (u "AppVM"));
                                          (u "gone", mkVM 1 (u "gone") (u "AppVM"))].
Proof.
  apply (refresh_cache_settles
           (fun _ _ => Ok (b "b class=AppVM" ++ [x0a])) true
           {| calls := []; _vm_list := None;
              _vm_objects := [(u "a", mkVM 0 (u "b") (u "AppVM"));
                              (u "gone", mkVM 1 (u "gone") (u "AppVM"))];
              next_id := 2; _pool_drivers := None |}
           (b "b class=AppVM" ++ [x0a])).
  - left. reflexivity.
  - reflexivity.
  - reflexivity.
  - apply all_have_class_single.
  - split; [split|].
    + repeat constructor; cbn; intuition discriminate.
    + intros k1 v1 k2 v2 [[= <- <-]|[[= <- <-]|[]]] [[= <- <-]|[[= <- <-]|[]]];
        cbn; intro; first [reflexivity | discriminate].
    + intros k v [[= <- <-]|[[= <- <-]|[]]]; cbn; lia.
Defined.

(** X7: after such a refresh no key of the table leads to a wrapper that
    the listing does not confirm, be it that its live name is no longer
    listed or that the listing gives this name another class. *)
Theorem refresh_cache_evicts_unlisted :
  forall (daemon : list Call -> Call -> Result bytes) (force : bool)
         (s : State) (vm_list_data : bytes) (vl : dict (dict str))
         (k : str) (o : VM),
    force = true \/ _vm_list s = None ->
    daemon (calls s) list_call = Ok vm_list_data ->
    parse_vm_list vm_list_data = Ok vl ->
    all_have_class vl ->
    wf_state s ->
    In (k, o) (_vm_objects s) ->
    ~ listed vl o ->
    exists s',
      refresh_cache daemon force s = (Ok tt, s')
      /\ forall k' v, In (k', v) (_vm_objects s') -> vm_id v <> vm_id o.
Proof.
  intros daemon force s data vl k o Hforce Hcall Hparse Hcls Hwf Hin Hnl.
  exists (refreshed vl s).
  split; [apply (refresh_cache_refreshed daemon force s data vl); auto;
          apply Hwf|].
  destruct Hwf as [[Hwfk Hinj] _].
  destruct (reconcile_all_settled vl (_vm_objects s) Hcls (conj Hwfk Hinj))
    as (_ & Hset & Hfrom).
  intros k' v Hv Hid. cbn [_vm_objects refreshed] in Hv.
  destruct (Hfrom k' v Hv) as [k0 Hk0].
  assert (k0 = k) by exact (Hinj k0 v k o Hk0 Hin Hid). subst k0.
  apply (In_dict_get _ _ _ Hwfk) in Hk0. apply (In_dict_get _ _ _ Hwfk) in Hin.
  assert (v = o) by congruence. subst v.
  destruct (Hset k' o Hv) as [Hn Hl]. apply Hnl.
  unfold listed. rewrite Hn. exact Hl.
Qed.

Lemma refresh_cache_evicts_unlisted_witness :
  exists s',
    refresh_cache (fun _ _ => Ok (b "work class=AppVM" ++ [x0a])) true
      {| calls := []; _vm_list := None;
         _vm_objects := [(u "gone", mkVM 0 (u "gone") (u "AppVM"))];
         next_id := 1; _pool_drivers := None |}
    = (Ok tt, s')
    /\ forall k' v, In (k', v) (_vm_objects s') -> vm_id v <> 0%nat.
Proof.
  apply (refresh_cache_evicts_unlisted
           (fun _ _ => Ok (b "work class=AppVM" ++ [x0a])) true
           {| calls := []; _vm_list := None;
              _vm_objects := [(u "gone", mkVM 0 (u "gone") (u "AppVM"))];
              next_id := 1; _pool_drivers := None |}
           (b "work class=AppVM" ++ [x0a])
           [(u "work", [(u "class", u "AppVM")])]
           (u "gone") (mkVM 0 (u "gone") (u "AppVM"))).
  - left. reflexivity.
  - reflexivity.
  - reflexivity.
  - apply all_have_class_single.
  - split; [split|].
    + repeat constructor. intros [].
    + intros k1 v1 k2 v2 [[= <- <-]|[]] [[= <- <-]|[]] _. reflexivity.
    + intros k v [[= <- <-]|[]]. cbn. lia.
  - left. reflexivity.
  - intros (props & H & _). discriminate H.
Defined.

(** ** Names and properties given twice *)

Lemma parse_vm_lines_wf : forall lines acc vl,
  dict_wf acc -> parse_vm_lines lines acc = Ok vl -> dict_wf vl.
Proof.
  induction lines as [|l lines IH]; intros acc vl Hwf; cbn [parse_vm_lines].
  - intros [= <-]. exact Hwf.
  - destruct (parse_vm_data l) as [nd|e]; cbn [rbind]; [|discriminate].
    apply IH. apply dict_wf_set. exact Hwf.
Qed.

Lemma refresh_cache_Ok_inv :
  forall (daemon : list Call -> Call -> Result bytes) force s s1,
    force = true \/ _vm_list s = None ->
    refresh_cache daemon force s = (Ok tt, s1) ->
    exists data vl,
      daemon (calls s) list_call = Ok data
      /\ parse_vm_list data = Ok vl
      /\ _vm_list s1 = Some vl.
Proof.
  intros daemon force s s1 Hforce. unfold refresh_cache, bind, get_state.
  assert (E : forall A (x y : A),
             match negb force, _vm_list s with
             | true, Some _ => x
             | _, _ => y
             end = y).
  { intros A x y. destruct Hforce as [->| ->]; [reflexivity|].
    destruct (negb force); reflexivity. }
  rewrite E. clear E. unfold qubesd_call. fold list_call.
  destruct (daemon (calls s) list_call) as [data|e] eqn:Ecall; [|discriminate].
  unfold lift.
  destruct (parse_vm_list data) as [vl|e] eqn:Eparse; [|discriminate].
  unfold modify. cbn [_vm_objects set_vm_list].
  match goal with
  | |- context [for_each ?i ?f ?s0] =>
      destruct (for_each_reconcile_frame vl i s0) as [t Ht];
      destruct (for_each i f s0) as [[[]|e] s2]
  end; cbn [snd] in *; subst; [|discriminate].
  intros [= <-]. exists data, vl.
  split; [reflexivity|]. split; [exact Eparse|reflexivity].
Qed.

(** X8: [keys()] on a collection without snapshot never lists a name
    twice, whatever the payload. *)
Theorem keys_no_duplicates :
  forall (daemon : list Call -> Call -> Result bytes) (s s1 : State)
         (names : list str),
    _vm_list s = None ->
    keys daemon s = (Ok names, s1) ->
    NoDup names.
Proof.
  intros daemon s s1 names Hnone. unfold keys, bind, get_state.
  destruct (refresh_cache daemon false s) as [[[]|e] s0] eqn:Hr;
    [|discriminate].
  destruct (refresh_cache_Ok_inv daemon false s s0 (or_intror Hnone) Hr)
    as (data & vl & _ & Hparse & Hvl).
  rewrite Hvl. intros [= <- _].
  apply (parse_vm_lines_wf (bytes_splitlines data) [] vl);
    [constructor|exact Hparse].
Qed.

Lemma keys_no_duplicates_witness :
  NoDup [u "work"; u "dom0"].
Proof.
  apply (keys_no_duplicates
           (fun _ _ => Ok (b "work class=AppVM" ++ [x0a]
                             ++ b "dom0 class=AdminVM" ++ [x0a]
                             ++ b "work class=StandaloneVM" ++ [x0a]))
           init
           (refreshed [(u "work", [(u "class", u "StandaloneVM")]);
                       (u "dom0", [(u "class", u "AdminVM")])] init)
           [u "work"; u "dom0"]); reflexivity.
Defined.

Lemma fold_set_last_wins : forall (V : Type) (l1 l2 : list (str * V)) k v acc,
  ~ In k (List.map fst l2) ->
  dict_get (fold_left (fun d kv => dict_set (fst kv) (snd kv) d)
                      (l1 ++ (k, v) :: l2) acc) k
  = Some v.
Proof.
  intros V l1 l2 k v acc Hk. rewrite fold_left_app. cbn [fold_left fst snd].
  rewrite fold_set_get_notin by exact Hk. apply dict_get_set_same.
Qed.

(** X9: when the payload gives a name on several lines, the snapshot
    keeps the properties of the last of them; and when a line gives a key
    several times, the properties keep the last value. *)
Theorem later_occurrences_win :
  forall (rs1 rs2 : list (str * list (str * str))) (name : str)
         (p1 p2 : list (str * str)) (key value : str),
    forallb wf_record (rs1 ++ (name, p1 ++ (key, value) :: p2) :: rs2) = true ->
    ~ In name (List.map fst rs2) ->
    ~ In key (List.map fst p2) ->
    exists vl props,
      parse_vm_list
        (render_listing (rs1 ++ (name, p1 ++ (key, value) :: p2) :: rs2))
      = Ok vl
      /\ dict_get vl name = Some props
      /\ props = dict_of_items (p1 ++ (key, value) :: p2)
      /\ dict_get props key = Some value.
Proof.
  intros rs1 rs2 name p1 p2 key value Hwf Hname Hkey.
  exists (snapshot_of (rs1 ++ (name, p1 ++ (key, value) :: p2) :: rs2)),
         (dict_of_items (p1 ++ (key, value) :: p2)).
  split; [apply parse_vm_list_render; exact Hwf|].
  split; [|split; [reflexivity|]].
  - unfold snapshot_of, dict_of_items at 1. rewrite List.map_app.
    cbn [List.map fst snd]. apply fold_set_last_wins.
    rewrite List.map_map. cbn [fst]. exact Hname.
  - unfold dict_of_items. apply fold_set_last_wins. exact Hkey.
Qed.

Lemma later_occurrences_win_witness :
  exists vl props,
    parse_vm_list
      (render_listing
         ([(u "work", [(u "class", u "AppVM")])]
            ++ (u "work", [(u "class", u "AppVM")]
                            ++ (u "class", u "StandaloneVM") :: []) :: []))
    = Ok vl
    /\ dict_get vl (u "work") = Some props
    /\ props = dict_of_items ([(u "class", u "AppVM")]
                                ++ (u "class", u "StandaloneVM") :: [])
    /\ dict_get props (u "class") = Some (u "StandaloneVM").
Proof.
  apply (later_occurrences_win
           [(u "work", [(u "class", u "AppVM")])] [] (u "work")
           [(u "class", u "AppVM")] [] (u "class") (u "StandaloneVM")).
  - reflexivity.
  - intros [].
  - intros [].
Defined.

(** ** A wrapper whose name is listed without class *)

Lemma reconcile_step_outcome : forall vl item s,
  dict_contains (fst item) (_vm_objects s) = true ->
  (lacks_class vl (snd item)
   /\ reconcile vl item s = (Raise (KeyError (u "class")), s))
  \/ (~ lacks_class vl (snd item)
      /\ reconcile vl item s
         = (Ok tt, set_vm_objects (reconcile_table vl item (_vm_objects s)) s)).
Proof.
  intros vl [name vm] s Hin. unfold reconcile, reconcile_table, lacks_class.
  cbn [fst snd] in *.
  destruct (dict_get vl (vm_name vm)) as [props|] eqn:Evl.
  - destruct (dict_get props (u "class")) as [class|] eqn:Ec.
    + right. split; [intros (p & [= <-] & H); congruence|].
      destruct (negb (str_eqb (vm_class vm) class)).
      * apply del_vm_object_ok; exact Hin.
      * destruct (negb (str_eqb name (vm_name vm))).
        -- unfold bind, modify. rewrite del_vm_object_ok; [reflexivity|].
           cbn [_vm_objects set_vm_objects].
           apply dict_contains_set_mono; exact Hin.
        -- unfold ret. rewrite set_vm_objects_same. reflexivity.
    + left. split; [eauto|reflexivity].
  - right. split; [intros (p & H & _); discriminate|].
    apply del_vm_object_ok; exact Hin.
Qed.

Lemma for_each_reconcile_lacks_class : forall vl items s,
  NoDup (List.map fst items) ->
  (forall k, In k (List.map fst items) ->
             dict_contains k (_vm_objects s) = true) ->
  (exists item, In item items /\ lacks_class vl (snd item)) ->
  exists t,
    for_each items (reconcile vl) s
    = (Raise (KeyError (u "class")), set_vm_objects t s).
Proof.
  intros vl items. induction items as [|item items IH];
    intros s Hnd Hin (bad & Hbad & Hlacks); [destruct Hbad|].
  cbn [List.map] in Hnd, Hin. inversion Hnd as [|? ? Hnotin Hnd']; subst.
  cbn [for_each]. unfold bind.
  destruct (reconcile_step_outcome vl item s (Hin _ (or_introl eq_refl)))
    as [[_ ->]|[Hok ->]].
  - exists (_vm_objects s). rewrite set_vm_objects_same. reflexivity.
  - destruct Hbad as [->|Hbad]; [contradiction|].
    destruct (IH (set_vm_objects (reconcile_table vl item (_vm_objects s)) s))
      as [t Ht]; [exact Hnd'| |eauto|].
    + intros k Hk. cbn [_vm_objects set_vm_objects].
      apply dict_contains_reconcile_table.
      * intros ->. contradiction.
      * apply Hin. right. exact Hk.
    + rewrite Ht. exists t. reflexivity.
Qed.

(** X10: when the table holds a wrapper whose live name the listing gives
    without a class, a refresh that makes the call raises
    [KeyError('class')]; the new snapshot is installed all the same, so
    that [keys()] then answers from it without another call. *)
Theorem refresh_cache_wrapper_without_class :
  forall (daemon : list Call -> Call -> Result bytes) (force : bool)
         (s : State) (vm_list_data : bytes) (vl : dict (dict str))
         (k : str) (vm : VM),
    force = true \/ _vm_list s = None ->
    daemon (calls s) list_call = Ok vm_list_data ->
    parse_vm_list vm_list_data = Ok vl ->
    dict_wf (_vm_objects s) ->
    In (k, vm) (_vm_objects s) ->
    lacks_class vl vm ->
    exists s',
      refresh_cache daemon force s = (Raise (KeyError (u "class")), s')
      /\ calls s' = calls s ++ [list_call]
      /\ _vm_list s' = Some vl
      /\ keys daemon s' = (Ok (dict_keys vl), s').
Proof.
  intros daemon force s data vl k vm Hforce Hcall Hparse Hwf Hin Hlacks.
  unfold refresh_cache, bind, get_state.
  assert (E : forall A (x y : A),
             match negb force, _vm_list s with
             | true, Some _ => x
             | _, _ => y
             end = y).
  { intros A x y. destruct Hforce as [->| ->]; [reflexivity|].
    destruct (negb force); reflexivity. }
  rewrite E. clear E. unfold qubesd_call. fold list_call. rewrite Hcall.
  unfold lift. rewrite Hparse. unfold modify. cbn [_vm_objects set_vm_list].
  match goal with
  | |- context [for_each ?i ?f ?s0] =>
      destruct (for_each_reconcile_lacks_class vl i s0) as [t Ht]
  end.
  - exact Hwf.
  - intros k0 Hk0. cbn [_vm_objects]. apply dict_contains_In. exact Hk0.
  - exists (k, vm). split; [exact Hin|exact Hlacks].
  - rewrite Ht.
    exists {| calls := calls s ++ [list_call]; _vm_list := Some vl;
              _vm_objects := t; next_id := next_id s;
              _pool_drivers := _pool_drivers s |}.
    split; [reflexivity|].
    split; [reflexivity|]. split; [reflexivity|].
    reflexivity.
Qed.

Lemma refresh_cache_wrapper_without_class_witness :
  exists s',
    refresh_cache (fun _ _ => Ok (b "work state=Running" ++ [x0a])) true
      {| calls := []; _vm_list := Some [(u "work", [(u "class", u "AppVM")])];
         _vm_objects := [(u "work", mkVM 0 (u "work") (u "AppVM"))];
         next_id := 1; _pool_drivers := None |}
    = (Raise (KeyError (u "class")), s')
    /\ calls s' = [] ++ [list_call]
    /\ _vm_list s' = Some [(u "work", [(u "state", u "Running")])]
    /\ keys (fun _ _ => Ok (b "work state=Running" ++ [x0a])) s'
       = (Ok (dict_keys [(u "work", [(u "state", u "Running")])]), s').
Proof.
  apply (refresh_cache_wrapper_without_class
           (fun _ _ => Ok (b "work state=Running" ++ [x0a])) true
           {| calls := [];
              _vm_list := Some [(u "work", [(u "class", u "AppVM")])];
              _vm_objects := [(u "work", mkVM 0 (u "work") (u "AppVM"))];
              next_id := 1; _pool_drivers := None |}
           (b "work state=Running" ++ [x0a])
           [(u "work", [(u "state", u "Running")])]
           (u "work") (mkVM 0 (u "work") (u "AppVM"))).
  - left. reflexivity.
  - reflexivity.
  - reflexivity.
  - repeat constructor. intros [].
  - left. reflexivity.
  - exists [(u "state", u "Running")]. split; reflexivity.
Defined.

(** ** Iteration over the collection *)

Section Iteration.
Variable daemon : list Call -> Call -> Result bytes.
Variable entry_point : str -> str -> Result str.

(** [get(name)] of a listed name on a settled collection returns the
    wrapper that the table then holds under the name, keeps the
    collection settled and keeps every wrapper where it is. *)
Lemma getitem_settled_state : forall vl s name props c,
  settled_state vl s ->
  dict_get vl name = Some props ->
  dict_get props (u "class") = Some c ->
  entry_point (u "qubesmgmt.vm") c = Ok c ->
  exists o s',
    getitem daemon entry_point name s = (Ok o, s')
    /\ settled_state vl s'
    /\ calls s' = calls s
    /\ dict_get (_vm_objects s') name = Some o
    /\ vm_name o = name /\ vm_class o = c
    /\ forall k v, dict_get (_vm_objects s) k = Some v ->
                   dict_get (_vm_objects s') k = Some v.
Proof.
  intros vl s name props c (Hvl & [[Hwf Hinj] Hlt] & Hset) Hname Hc Hep.
  assert (Hin : dict_contains name vl = true)
    by (unfold dict_contains; rewrite Hname; reflexivity).
  pose proof (refresh_cache_cached daemon s vl Hvl) as Hr.
  destruct (dict_get (_vm_objects s) name) as [o|] eqn:Hget.
  - exists o, s.
    rewrite (getitem_present daemon entry_point s s vl name o) by assumption.
    destruct (Hset name o (dict_get_In _ _ _ Hget))
      as (Hn & props' & Hp' & Hc').
    assert (props' = props) by congruence. subst props'.
    split; [reflexivity|].
    split; [split; [exact Hvl|split; [split; [split|]|]]; assumption|].
    split; [reflexivity|]. split; [exact Hget|].
    split; [exact Hn|]. split; [congruence|]. auto.
  - exists (mkVM (next_id s) name c),
           (with_new_vm name (mkVM (next_id s) name c) s).
    rewrite (getitem_new daemon entry_point s s vl name props c c)
      by assumption.
    split; [reflexivity|]. split.
    { split; [exact Hvl|]. cbn [_vm_objects next_id with_new_vm].
      split; [split; [split|]|].
      - apply dict_wf_set. exact Hwf.
      - intros k1 v1 k2 v2 H1 H2 Heq.
        cbn [_vm_objects next_id with_new_vm] in *.
        apply In_dict_set in H1 as [[-> ->]|H1];
          apply In_dict_set in H2 as [[-> ->]|H2]; auto.
        + apply Hlt in H2. cbn [vm_id] in Heq. lia.
        + apply Hlt in H1. cbn [vm_id] in Heq. lia.
        + exact (Hinj k1 v1 k2 v2 H1 H2 Heq).
      - intros k v Hkv. cbn [_vm_objects next_id with_new_vm] in *.
        apply In_dict_set in Hkv as [[-> ->]|Hkv].
        + cbn [vm_id]. lia.
        + apply Hlt in Hkv. lia.
      - intros k v Hkv. cbn [_vm_objects next_id with_new_vm] in *.
        apply In_dict_set in Hkv as [[-> ->]|Hkv].
        + split; [reflexivity|]. exists props. auto.
        + apply (Hset k v Hkv). }
    cbn [calls _vm_objects with_new_vm vm_name vm_class].
    split; [reflexivity|]. split; [apply dict_get_set_same|].
    split; [reflexivity|]. split; [reflexivity|].
    intros k v Hkv. rewrite dict_get_set.
    destruct (str_eqb_spec name k) as [<-|_]; [congruence|exact Hkv].
Qed.

Lemma collect_getitem_settled : forall vl names s,
  all_have_class vl ->
  classes_registered entry_point vl ->
  settled_state vl s ->
  (forall n, In n names -> In n (dict_keys vl)) ->
  exists vms s',
    collect names (getitem daemon entry_point) s = (Ok vms, s')
    /\ settled_state vl s'
    /\ calls s' = calls s
    /\ List.map vm_name vms = names
    /\ Forall2 (fun n vm => dict_get (_vm_objects s') n = Some vm) names vms
    /\ forall k v, dict_get (_vm_objects s) k = Some v ->
                   dict_get (_vm_objects s') k = Some v.
Proof.
  intros vl names. induction names as [|n names IH];
    intros s Hcls Hreg Hs Hin.
  - exists [], s. cbn [collect]. unfold ret.
    split; [reflexivity|]. split; [exact Hs|]. split; [reflexivity|].
    split; [reflexivity|]. split; [constructor|auto].
  - assert (Hn : dict_contains n vl = true)
      by (apply dict_contains_In, Hin; left; reflexivity).
    unfold dict_contains in Hn.
    destruct (dict_get vl n) as [props|] eqn:Hprops; [|discriminate].
    pose proof (Hcls n props Hprops) as Hc. unfold dict_contains in Hc.
    destruct (dict_get props (u "class")) as [c|] eqn:Hclass; [|discriminate].
    destruct (getitem_settled_state vl s n props c Hs Hprops Hclass
                (Hreg n props c Hprops Hclass))
      as (o & s1 & Hget & Hs1 & Hcalls1 & Ho & Hname & _ & Hmono1).
    destruct (IH s1 Hcls Hreg Hs1 (fun m Hm => Hin m (or_intror Hm)))
      as (vms & s2 & Hcol & Hs2 & Hcalls2 & Hnames & Hall & Hmono2).
    exists (o :: vms), s2. cbn [collect]. unfold bind.
    rewrite Hget, Hcol. unfold ret.
    split; [reflexivity|]. split; [exact Hs2|].
    split; [congruence|]. split; [cbn [List.map]; congruence|].
    split; [constructor; auto|]. auto.
Qed.

Lemma collect_getitem_present : forall vl s names vms,
  _vm_list s = Some vl ->
  (forall n, In n names -> In n (dict_keys vl)) ->
  Forall2 (fun n vm => dict_get (_vm_objects s) n = Some vm) names vms ->
  collect names (getitem daemon entry_point) s = (Ok vms, s).
Proof.
  intros vl s names vms Hvl Hin Hall.
  induction Hall as [|n vm names vms Hn Hall IH]; [reflexivity|].
  cbn [collect]. unfold bind.
  rewrite (getitem_present daemon entry_point s s vl n vm
             (refresh_cache_cached daemon s vl Hvl) Hvl
             (proj2 (dict_contains_In vl n) (Hin n (or_introl eq_refl))) Hn).
  rewrite IH; [reflexivity|]. intros m Hm. apply Hin. right. exact Hm.
Qed.

(** X11: a complete iteration over a well-formed collection without
    snapshot, when the listing gives every name a class that is
    registered under its own name, makes the one listing call and returns
    one wrapper per name of the snapshot, in the order of the snapshot,
    each carrying its name and standing under it in the table; a second
    iteration returns the same instances and changes nothing. *)
Theorem iter_one_wrapper_per_name :
  forall (s : State) (vm_list_data : bytes) (vl : dict (dict str)),
    _vm_list s = None ->
    daemon (calls s) list_call = Ok vm_list_data ->
    parse_vm_list vm_list_data = Ok vl ->
    all_have_class vl ->
    classes_registered entry_point vl ->
    wf_state s ->
    exists vms s',
      iter daemon entry_point s = (Ok vms, s')
      /\ calls s' = calls s ++ [list_call]
      /\ List.map vm_name vms = dict_keys vl
      /\ Forall2 (fun n vm => dict_get (_vm_objects s') n = Some vm)
                 (dict_keys vl) vms
      /\ settled_state vl s'
      /\ iter daemon entry_point s' = (Ok vms, s').
Proof.
  intros s data vl Hnone Hcall Hparse Hcls Hreg Hwf.
  pose proof (refresh_cache_refreshed daemon false s data vl
                (or_intror Hnone) Hcall Hparse Hcls (proj1 (proj1 Hwf))) as Hr.
  destruct (collect_getitem_settled vl (dict_keys vl) (refreshed vl s)
              Hcls Hreg (wf_state_refreshed vl s Hcls Hwf) (fun n H => H))
    as (vms & s' & Hcol & Hs' & Hcalls & Hnames & Hall & _).
  exists vms, s'.
  assert (Hiter : forall s0, _vm_list s0 = Some vl ->
            iter daemon entry_point s0
            = collect (dict_keys vl) (getitem daemon entry_point) s0).
  { intros s0 H0. unfold iter, bind, get_state.
    rewrite (refresh_cache_cached daemon s0 vl H0), H0. reflexivity. }
  split.
  { unfold iter, bind, get_state. rewrite Hr. cbn [_vm_list refreshed].
    exact Hcol. }
  split; [exact Hcalls|]. split; [exact Hnames|]. split; [exact Hall|].
  split; [exact Hs'|].
  rewrite (Hiter s' (proj1 Hs')).
  apply (collect_getitem_present vl); [apply Hs'|auto|exact Hall].
Qed.

End Iteration.

Lemma classes_registered_identity : forall vl,
  classes_registered (fun _ class => Ok class) vl.
Proof. intros vl name props class _ _. reflexivity. Qed.

Lemma iter_one_wrapper_per_name_witness :
  exists vms s',
    iter (fun _ _ => Ok (b "work class=AppVM" ++ [x0a]))
         (fun _ class => Ok class) init
    = (Ok vms, s')
    /\ calls s' = calls init ++ [list_call]
    /\ List.map vm_name vms = dict_keys [(u "work", [(u "class", u "AppVM")])]
    /\ Forall2 (fun n vm => dict_get (_vm_objects s') n = Some vm)
               (dict_keys [(u "work", [(u "class", u "AppVM")])]) vms
    /\ settled_state [(u "work", [(u "class", u "AppVM")])] s'
    /\ iter (fun _ _ => Ok (b "work class=AppVM" ++ [x0a]))
            (fun _ class => Ok class) s'
       = (Ok vms, s').
Proof.
  apply (iter_one_wrapper_per_name
           (fun _ _ => Ok (b "work class=AppVM" ++ [x0a]))
           (fun _ class => Ok class) init
           (b "work class=AppVM" ++ [x0a])).
  - reflexivity.
  - reflexivity.
  - reflexivity.
  - apply all_have_class_single.
  - apply classes_registered_identity.
  - exact wf_state_init.
Defined.

(** ** The listing of pool drivers *)

Lemma endswith1_last : forall (data : bytes) (x : byte),
  endswith1 (data ++ [x]) x = true.
Proof.
  induction data as [|y data IH]; intro x.
  - cbn. apply Byte.byte_dec_lb. reflexivity.
  - cbn [app endswith1]. destruct (data ++ [x]) eqn:E.
    + destruct data; discriminate E.
    + rewrite <- E. apply IH.
Qed.

Lemma decode_ascii_map_byte_of : forall (t : str),
  forallb (fun c => c <? 128) t = true ->
  decode_ascii (List.map byte_of t) = Ok t.
Proof.
  induction t as [|c t IH]; intro H; [reflexivity|].
  cbn [forallb] in H. apply andb_true_iff in H as [Hc Ht].
  pose proof Hc as Hlt. apply N.ltb_lt in Hlt.
  cbn [List.map decode_ascii]. rewrite to_N_byte_of by lia.
  rewrite Hc, (IH Ht). reflexivity.
Qed.

Lemma str_splitlines_line : forall (line rest : str),
  forallb (fun c => negb (str_is_break c)) line = true ->
  str_splitlines (line ++ LF :: rest) = line :: str_splitlines rest.
Proof.
  unfold str_splitlines. induction line as [|c line IH]; intros rest H.
  - cbn [app splitlines]. change (str_is_break LF) with true.
    cbv beta iota. destruct rest as [|d rest']; reflexivity.
  - cbn [forallb] in H. apply andb_true_iff in H as [Hc Hl].
    apply negb_true_iff in Hc.
    cbn [app splitlines]. rewrite Hc, (IH rest Hl). reflexivity.
Qed.

Lemma word_char_spec : forall c,
  word_char c = true ->
  (c <? 128) = true /\ c <> SPACE /\ str_is_break c = false.
Proof.
  intros c. unfold word_char. rewrite !andb_true_iff, !negb_true_iff.
  rewrite N.eqb_neq. tauto.
Qed.

Lemma word_no_space : forall l,
  forallb word_char l = true -> existsb (is_char SPACE) l = false.
Proof.
  intro l. apply (forallb_no_sep word_char).
  intros x H. apply word_char_spec in H. tauto.
Qed.

Lemma wf_driver_spec : forall r,
  wf_driver r = true ->
  forallb word_char (fst r) = true
  /\ snd r <> []
  /\ forallb (forallb word_char) (snd r) = true.
Proof.
  intros r. unfold wf_driver. rewrite !andb_true_iff, negb_true_iff.
  intros [[H1 H2] H3]. repeat split; auto.
  intro E. rewrite E in H2. discriminate.
Qed.

(** The characters of a rendered driver line: ASCII, none of them a line
    boundary. *)
Lemma render_driver_chars : forall r,
  wf_driver r = true ->
  forallb (fun c => (c <? 128) && negb (str_is_break c)) (render_driver r)
  = true.
Proof.
  intros r H. apply wf_driver_spec in H as (Hn & _ & Ho).
  assert (Hword : forall l, forallb word_char l = true ->
            forallb (fun c => (c <? 128) && negb (str_is_break c)) l = true).
  { intro l. apply forallb_impl. intros c Hc.
    apply word_char_spec in Hc as (H1 & _ & H3). rewrite H1, H3. reflexivity. }
  unfold render_driver. rewrite !forallb_app.
  apply andb_true_iff. split; [apply Hword; exact Hn|].
  apply andb_true_iff. split; [reflexivity|].
  induction (snd r) as [|t toks IH]; [reflexivity|].
  cbn [forallb] in Ho. apply andb_true_iff in Ho as [Ht Htoks].
  destruct toks as [|t' toks]; [cbn [join]; auto|].
  change (join [SPACE] (t :: t' :: toks))
    with (t ++ SPACE :: join [SPACE] (t' :: toks)).
  rewrite forallb_app. cbn [forallb]. rewrite (Hword _ Ht), (IH Htoks).
  reflexivity.
Qed.

Lemma parse_driver_line_render : forall r,
  wf_driver r = true ->
  parse_driver_line (render_driver r) = Ok (Some (fst r, snd r)).
Proof.
  intros r H. apply wf_driver_spec in H as (Hn & Hne & Ho).
  unfold parse_driver_line, render_driver.
  destruct (fst r ++ [SPACE] ++ join [SPACE] (snd r)) eqn:E.
  { destruct (fst r); discriminate E. }
  rewrite <- E. clear E. unfold str_split at 1.
  change ([SPACE] ++ ?x) with (SPACE :: x).
  rewrite split_at_sep;
    [|apply word_no_space; exact Hn|unfold is_char; apply N.eqb_refl
     |discriminate].
  cbn [option_map Nat.pred]. rewrite split_zero.
  rewrite split_join; [reflexivity|exact Hne|].
  apply Forall_forall. intros t Ht. apply word_no_space.
  rewrite forallb_forall in Ho. auto.
Qed.

Lemma parse_driver_lines_render : forall rs acc,
  forallb wf_driver rs = true ->
  parse_driver_lines (List.map render_driver rs) acc
  = Ok (fold_left (fun d kv => dict_set (fst kv) (snd kv) d) rs acc).
Proof.
  induction rs as [|r rs IH]; intros acc H; [reflexivity|].
  cbn [forallb] in H. apply andb_true_iff in H as [Hr Hrs].
  cbn [List.map parse_driver_lines fold_left].
  rewrite (parse_driver_line_render r Hr). cbn [rbind]. apply IH. exact Hrs.
Qed.

Lemma drivers_text_lines : forall rs,
  forallb wf_driver rs = true ->
  forallb (fun c => c <? 128)
          (List.concat (List.map (fun r => render_driver r ++ [LF]) rs)) = true
  /\ str_splitlines
       (List.concat (List.map (fun r => render_driver r ++ [LF]) rs))
     = List.map render_driver rs.
Proof.
  induction rs as [|r rs IH]; intro H; [split; reflexivity|].
  cbn [forallb] in H. apply andb_true_iff in H as [Hr Hrs].
  destruct (IH Hrs) as [IH1 IH2].
  pose proof (render_driver_chars r Hr) as Hchars.
  cbn [List.map List.concat]. rewrite <- app_assoc. cbn [app]. split.
  - rewrite forallb_app. cbn [forallb]. rewrite IH1.
    rewrite (forallb_impl _ _ _ _ (fun c Hc =>
               proj1 (proj1 (andb_true_iff _ _) Hc)) Hchars).
    reflexivity.
  - rewrite str_splitlines_line.
    + rewrite IH2. reflexivity.
    + apply (forallb_impl _ _ _ _ (fun c Hc =>
               proj2 (proj1 (andb_true_iff _ _) Hc)) Hchars).
Qed.

Lemma drivers_text_ends : forall rs,
  rs <> [] ->
  exists t, List.concat (List.map (fun r => render_driver r ++ [LF]) rs)
            = t ++ [LF].
Proof.
  induction rs as [|r rs IH]; intro Hne; [congruence|].
  cbn [List.map List.concat]. destruct rs as [|r' rs].
  - exists (render_driver r). cbn. rewrite app_nil_r. reflexivity.
  - destruct IH as [t Ht]; [discriminate|]. rewrite Ht.
    exists ((render_driver r ++ [LF]) ++ t). rewrite app_assoc. reflexivity.
Qed.

Lemma render_drivers_ends : forall rs,
  rs <> [] -> endswith1 (render_drivers rs) x0a = true.
Proof.
  intros rs Hne. destruct (drivers_text_ends rs Hne) as [t Ht].
  unfold render_drivers. rewrite Ht, List.map_app. apply endswith1_last.
Qed.

(** X12: for a listing of well-formed driver records (a name, a space
    and the options separated by single spaces, every line ended by a line
    feed), [pool_drivers] returns exactly the names of the payload and
    [pool_driver_parameters] the options of a name in their order; a name
    that is not listed raises [KeyError], and the drivers stay cached, so
    that later accesses make no call. *)
Theorem pool_drivers_roundtrip :
  forall (daemon : list Call -> Call -> Result bytes) (s : State)
         (rs : list (str * list str)),
    rs <> [] ->
    forallb wf_driver rs = true ->
    _pool_drivers s = None ->
    daemon (calls s) drivers_call = Ok (render_drivers rs) ->
    pool_drivers daemon s
    = (Ok (dict_keys (dict_of_items rs)),
       set_pool_drivers (Some (dict_of_items rs)) (with_call drivers_call s))
    /\ (forall name,
          In name (dict_keys (dict_of_items rs)) <-> In name (List.map fst rs))
    /\ (NoDup (List.map fst rs) ->
        forall name opts,
          In (name, opts) rs ->
          pool_driver_parameters daemon name s
          = (Ok opts,
             set_pool_drivers (Some (dict_of_items rs))
               (with_call drivers_call s)))
    /\ (forall name,
          ~ In name (List.map fst rs) ->
          pool_driver_parameters daemon name s
          = (Raise (KeyError name),
             set_pool_drivers (Some (dict_of_items rs))
               (with_call drivers_call s)))
    /\ pool_drivers daemon
         (set_pool_drivers (Some (dict_of_items rs)) (with_call drivers_call s))
       = (Ok (dict_keys (dict_of_items rs)),
          set_pool_drivers (Some (dict_of_items rs))
            (with_call drivers_call s)).
Proof.
  intros daemon s rs Hne Hwf Hnone Hcall.
  assert (Hrefresh :
    _refresh_pool_drivers daemon s
    = (Ok tt, set_pool_drivers (Some (dict_of_items rs))
                (with_call drivers_call s))).
  { unfold _refresh_pool_drivers, bind, get_state. rewrite Hnone.
    unfold qubesd_call. fold drivers_call. rewrite Hcall.
    destruct (drivers_text_lines rs Hwf) as [Hascii Hlines].
    rewrite (render_drivers_ends rs Hne). cbn [negb].
    unfold lift, render_drivers.
    rewrite (decode_ascii_map_byte_of _ Hascii). unfold bind, lift.
    rewrite Hlines.
    rewrite parse_driver_lines_render by exact Hwf. reflexivity. }
  split; [|split; [|split; [|split]]].
  - unfold pool_drivers, bind, get_state. rewrite Hrefresh. reflexivity.
  - intro name. apply dict_of_items_keys.
  - intros Hnd name opts Hin.
    unfold pool_driver_parameters, bind, get_state. rewrite Hrefresh.
    cbn [_pool_drivers set_pool_drivers]. unfold dict_of_items.
    rewrite (fold_set_get_In rs [] name opts Hnd Hin). reflexivity.
  - intros name Hnotin.
    unfold pool_driver_parameters, bind, get_state. rewrite Hrefresh.
    cbn [_pool_drivers set_pool_drivers]. unfold dict_of_items.
    rewrite (fold_set_get_notin rs [] name Hnotin). reflexivity.
  - reflexivity.
Qed.

Lemma pool_drivers_roundtrip_witness :
  pool_drivers
    (fun _ _ => Ok (b "file dir_path revisions_to_keep" ++ [x0a]
                      ++ b "lvm volume_group thin_pool" ++ [x0a])) init
  = (Ok (dict_keys
           (dict_of_items
              [(u "file", [u "dir_path"; u "revisions_to_keep"]);
               (u "lvm", [u "volume_group"; u "thin_pool"])])),
     set_pool_drivers
       (Some (dict_of_items
                [(u "file", [u "dir_path"; u "revisions_to_keep"]);
                 (u "lvm", [u "volume_group"; u "thin_pool"])]))
       (with_call drivers_call init)).
Proof.
  apply (pool_drivers_roundtrip
           (fun _ _ => Ok (b "file dir_path revisions_to_keep" ++ [x0a]
                             ++ b "lvm volume_group thin_pool" ++ [x0a]))
           init
           [(u "file", [u "dir_path"; u "revisions_to_keep"]);
            (u "lvm", [u "volume_group"; u "thin_pool"])]).
  - discriminate.
  - reflexivity.
  - reflexivity.
  - reflexivity.
Defined.

Lemma parse_driver_line_Raise : forall line e,
  parse_driver_line line = Raise e -> e = ValueError.
Proof.
  intros line e. unfold parse_driver_line.
  destruct line as [|c line]; [discriminate|].
  destruct (str_split SPACE (Some 1%nat) (c :: line)) as [|x [|y [|? ?]]];
    congruence.
Qed.

Lemma parse_driver_lines_no_space : forall lines acc line,
  In line lines -> line <> [] -> existsb (is_char SPACE) line = false ->
  parse_driver_lines lines acc = Raise ValueError.
Proof.
  induction lines as [|l lines IH]; intros acc line Hin Hne Hsp;
    [destruct Hin|].
  cbn [parse_driver_lines].
  destruct (parse_driver_line l) as [r|e] eqn:El; cbn [rbind].
  - destruct Hin as [->|Hin].
    + exfalso. unfold parse_driver_line in El.
      destruct line as [|c line]; [congruence|].
      unfold str_split in El. rewrite (split_no_sep _ _ _ Hsp) in El.
      discriminate El.
    + destruct r as [[n o]|]; apply (IH _ line); assumption.
  - rewrite (parse_driver_line_Raise l e El). reflexivity.
Qed.

(** X13: the listing of pool drivers must end with a line feed and every
    line that is not empty must hold a space.  A payload that does not
    end with a line feed, the empty payload among them, raises
    [AssertionError]; a line with a name alone raises [ValueError].  In
    both cases the drivers stay uncached, so that the next access calls
    the dispatcher again. *)
Theorem pool_drivers_malformed :
  forall (daemon : list Call -> Call -> Result bytes) (s : State)
         (data : bytes),
    _pool_drivers s = None ->
    daemon (calls s) drivers_call = Ok data ->
    (endswith1 data x0a = false ->
     _refresh_pool_drivers daemon s
     = (Raise AssertionError, with_call drivers_call s))
    /\ (forall text line,
          endswith1 data x0a = true ->
          decode_ascii data = Ok text ->
          In line (str_splitlines text) ->
          line <> [] ->
          existsb (is_char SPACE) line = false ->
          _refresh_pool_drivers daemon s
          = (Raise ValueError, with_call drivers_call s))
    /\ _pool_drivers (with_call drivers_call s) = None.
Proof.
  intros daemon s data Hnone Hcall. split; [|split].
  - intro Hend. unfold _refresh_pool_drivers, bind, get_state.
    rewrite Hnone. unfold qubesd_call. fold drivers_call.
    rewrite Hcall, Hend. reflexivity.
  - intros text line Hend Hdec Hin Hne Hsp.
    unfold _refresh_pool_drivers, bind, get_state.
    rewrite Hnone. unfold qubesd_call. fold drivers_call.
    rewrite Hcall, Hend. cbn [negb]. unfold lift. rewrite Hdec.
    rewrite (parse_driver_lines_no_space _ [] line Hin Hne Hsp).
    reflexivity.
  - exact Hnone.
Qed.

Lemma pool_drivers_malformed_witness :
  _refresh_pool_drivers (fun _ _ => Ok []) init
  = (Raise AssertionError, with_call drivers_call init)
  /\ _refresh_pool_drivers (fun _ _ => Ok (b "file" ++ [x0a])) init
     = (Raise ValueError, with_call drivers_call init).
Proof.
  split.
  - destruct (pool_drivers_malformed (fun _ _ => Ok []) init []
                eq_refl eq_refl) as (H & _).
    apply H. reflexivity.
  - destruct (pool_drivers_malformed (fun _ _ => Ok (b "file" ++ [x0a])) init
                (b "file" ++ [x0a]) eq_refl eq_refl) as (_ & H & _).
    apply (H (u "file" ++ [LF]) (u "file")).
    + reflexivity.
    + reflexivity.
    + left. reflexivity.
    + discriminate.
    + reflexivity.
Defined.

(** ** The request of the local transport *)

Lemma encode_ascii_spec : forall s,
  (forallb (fun c => c <? 128) s = true
   /\ encode_ascii s = Ok (List.map byte_of s))
  \/ (forallb (fun c => c <? 128) s = false
      /\ encode_ascii s = Raise UnicodeEncodeError).
Proof.
  induction s as [|c s IH]; [left; split; reflexivity|].
  cbn [forallb encode_ascii List.map].
  destruct (c <? 128) eqn:Hc; cbn [andb]; [|right; split; reflexivity].
  apply N.ltb_lt in Hc. unfold byte_of.
  destruct (Byte.of_N c) as [x|] eqn:Ex;
    [|apply Byte.of_N_None_iff in Ex; lia].
  destruct IH as [[H1 H2]|[H1 H2]]; rewrite H1, H2; cbn [rbind];
    [left|right]; split; reflexivity.
Qed.

Lemma local_request_sent :
  forall (qubesd : bytes -> bytes) (parse : bytes -> Result bytes)
         (dest method : str) (arg : option str) (payload : option bytes)
         (m d a : bytes),
    encode_ascii method = Ok m ->
    encode_ascii dest = Ok d ->
    match arg with Some x => encode_ascii x | None => Ok [] end = Ok a ->
    QubesLocal.qubesd_call (Ok tt) qubesd parse dest method arg payload
    = (parse (qubesd (local_frame m d a
                        match payload with Some p => p | None => [] end)),
       QubesLocal.mkSocket
         (local_frame m d a match payload with Some p => p | None => [] end)
         true).
Proof.
  intros qubesd parse dest method arg payload m d a Hm Hd Ha.
  unfold QubesLocal.qubesd_call, local_frame.
  destruct arg as [x|]; cbn [QubesLocal.send_call_args];
    rewrite encode_ascii_dom0, Hm, Hd; [rewrite Ha | injection Ha as <-];
    destruct payload as [p|];
    unfold QubesLocal.shutdown, QubesLocal.sendall; cbn [QubesLocal.sent];
    repeat rewrite <- app_assoc; cbn [app]; try rewrite app_nil_r;
    reflexivity.
Qed.

Lemma is_ascii_encode : forall s,
  is_ascii s = true -> encode_ascii s = Ok (List.map byte_of s).
Proof.
  intros s H. unfold is_ascii in H.
  destruct (encode_ascii_spec s) as [[_ E]|[E _]]; congruence.
Qed.

Lemma not_ascii_encode : forall s,
  is_ascii s = false -> encode_ascii s = Raise UnicodeEncodeError.
Proof.
  intros s H. unfold is_ascii in H.
  destruct (encode_ascii_spec s) as [[E _]|[_ E]]; congruence.
Qed.

Lemma no_nul_bytes : forall s,
  is_ascii s = true -> no_nul s = true ->
  existsb is_nul_byte (List.map byte_of s) = false.
Proof.
  unfold is_ascii, no_nul. induction s as [|c s IH]; intros Ha Hn;
    [reflexivity|].
  cbn [forallb] in Ha, Hn. apply andb_true_iff in Ha as [Hc Ha].
  apply andb_true_iff in Hn as [Hz Hn]. apply N.ltb_lt in Hc.
  cbn [List.map existsb]. rewrite (IH Ha Hn), orb_false_r.
  unfold is_nul_byte. rewrite to_N_byte_of by lia.
  apply negb_true_iff. exact Hz.
Qed.

(** X14: a request whose fields are ASCII without null character can be
    taken apart again: cutting what was written at its first four null
    bytes gives 'dom0', the method, the destination, the argument (empty
    when there is none) and the payload, whatever bytes the payload
    holds. *)
Theorem local_request_fields_recoverable :
  forall (qubesd : bytes -> bytes) (parse : bytes -> Result bytes)
         (dest method : str) (arg : option str) (payload : option bytes),
    is_ascii method = true -> no_nul method = true ->
    is_ascii dest = true -> no_nul dest = true ->
    is_ascii (match arg with Some a => a | None => [] end) = true ->
    no_nul (match arg with Some a => a | None => [] end) = true ->
    split is_nul_byte (Some 4%nat)
      (QubesLocal.sent
         (snd (QubesLocal.qubesd_call (Ok tt) qubesd parse dest method arg
                 payload)))
    = [b "dom0"; List.map byte_of method; List.map byte_of dest;
       List.map byte_of (match arg with Some a => a | None => [] end);
       match payload with Some p => p | None => [] end].
Proof.
  intros qubesd parse dest method arg payload Hm Hmz Hd Hdz Ha Haz.
  rewrite (local_request_sent qubesd parse dest method arg payload
             (List.map byte_of method) (List.map byte_of dest)
             (List.map byte_of (match arg with Some a => a | None => [] end))).
  - cbn [snd QubesLocal.sent]. unfold local_frame.
    repeat change ([x00] ++ ?x) with (x00 :: x).
    rewrite split_at_sep; [|reflexivity|reflexivity|discriminate].
    cbn [option_map Nat.pred].
    rewrite split_at_sep;
      [|apply no_nul_bytes; assumption|reflexivity|discriminate].
    cbn [option_map Nat.pred].
    rewrite split_at_sep;
      [|apply no_nul_bytes; assumption|reflexivity|discriminate].
    cbn [option_map Nat.pred].
    rewrite split_at_sep;
      [|apply no_nul_bytes; assumption|reflexivity|discriminate].
    cbn [option_map Nat.pred]. rewrite split_zero. reflexivity.
  - apply is_ascii_encode. exact Hm.
  - apply is_ascii_encode. exact Hd.
  - destruct arg as [a|]; [apply is_ascii_encode; exact Ha|reflexivity].
Qed.

Lemma local_request_fields_recoverable_witness :
  split is_nul_byte (Some 4%nat)
    (QubesLocal.sent
       (snd (QubesLocal.qubesd_call (Ok tt) (fun _ => []) (fun r => Ok r)
               (u "work") (u "mgmt.vm.Start") None (Some [x00; x41]))))
  = [b "dom0"; List.map byte_of (u "mgmt.vm.Start");
     List.map byte_of (u "work"); List.map byte_of []; [x00; x41]].
Proof.
  apply (local_request_fields_recoverable (fun _ => []) (fun r => Ok r)
           (u "work") (u "mgmt.vm.Start") None (Some [x00; x41]));
    reflexivity.
Defined.

Lemma sendall_nil : forall sock, QubesLocal.sendall [] sock = sock.
Proof.
  intros [sent shut]. unfold QubesLocal.sendall.
  cbn [QubesLocal.sent QubesLocal.shut_wr]. rewrite app_nil_r. reflexivity.
Qed.

(** X15: on the wire an absent argument and an empty argument are the
    same request, and so are an absent payload and an empty payload: the
    call returns the same result and leaves the same bytes written. *)
Theorem local_absent_is_empty :
  forall (connect : Result unit) (qubesd : bytes -> bytes)
         (parse : bytes -> Result bytes) (dest method : str)
         (arg : option str) (payload : option bytes),
    QubesLocal.qubesd_call connect qubesd parse dest method None payload
    = QubesLocal.qubesd_call connect qubesd parse dest method (Some []) payload
    /\ QubesLocal.qubesd_call connect qubesd parse dest method arg None
       = QubesLocal.qubesd_call connect qubesd parse dest method arg (Some []).
Proof.
  intros connect qubesd parse dest method arg payload.
  unfold QubesLocal.qubesd_call.
  destruct connect as [[]|e]; [|split; reflexivity].
  cbn [QubesLocal.send_call_args]. rewrite encode_ascii_dom0.
  destruct (encode_ascii method) as [m|e]; [|split; reflexivity].
  destruct (encode_ascii dest) as [d|e]; [|split; reflexivity].
  split.
  - cbn [encode_ascii]. rewrite sendall_nil. reflexivity.
  - destruct arg as [a|]; [destruct (encode_ascii a) as [x|e]|];
      try rewrite sendall_nil; reflexivity.
Qed.

(** X16: on a connected socket the call stops at the first of the
    method, the destination and the argument that holds a character that
    is not ASCII: it raises [UnicodeEncodeError] after having written
    exactly the fields that come before this one, each with its null
    byte ('dom0' alone for the method, 'dom0' and the method for the
    destination, these and the destination for the argument).  The
    payload is not written, the writing side is not shut down and the
    answer of the daemon is not read. *)
Theorem local_non_ascii_field :
  forall (qubesd : bytes -> bytes) (parse : bytes -> Result bytes)
         (dest method : str) (arg : option str) (payload : option bytes),
    (is_ascii method = false ->
     QubesLocal.qubesd_call (Ok tt) qubesd parse dest method arg payload
     = (Raise UnicodeEncodeError,
        QubesLocal.mkSocket (b "dom0" ++ [x00]) false))
    /\ (is_ascii method = true -> is_ascii dest = false ->
        QubesLocal.qubesd_call (Ok tt) qubesd parse dest method arg payload
        = (Raise UnicodeEncodeError,
           QubesLocal.mkSocket
             (b "dom0" ++ [x00] ++ List.map byte_of method ++ [x00]) false))
    /\ (forall a,
          is_ascii method = true -> is_ascii dest = true ->
          arg = Some a -> is_ascii a = false ->
          QubesLocal.qubesd_call (Ok tt) qubesd parse dest method arg payload
          = (Raise UnicodeEncodeError,
             QubesLocal.mkSocket
               (b "dom0" ++ [x00] ++ List.map byte_of method ++ [x00]
                  ++ List.map byte_of dest ++ [x00]) false)).
Proof.
  intros qubesd parse dest method arg payload.
  unfold QubesLocal.qubesd_call. cbn [QubesLocal.send_call_args].
  rewrite encode_ascii_dom0. split; [|split].
  - intro Hm. rewrite (not_ascii_encode method Hm). reflexivity.
  - intros Hm Hd.
    rewrite (is_ascii_encode method Hm), (not_ascii_encode dest Hd).
    unfold QubesLocal.sendall. cbn [QubesLocal.sent QubesLocal.shut_wr].
    rewrite <- !app_assoc. reflexivity.
  - intros a Hm Hd -> Ha.
    rewrite (is_ascii_encode method Hm), (is_ascii_encode dest Hd),
      (not_ascii_encode a Ha).
    unfold QubesLocal.sendall. cbn [QubesLocal.sent QubesLocal.shut_wr].
    rewrite <- !app_assoc. reflexivity.
Qed.

Lemma local_non_ascii_field_witness :
  QubesLocal.qubesd_call (Ok tt) (fun _ => b "0") (fun r => Ok r)
    (u "w") (u "m") (Some [233]) (Some (b "x"))
  = (Raise UnicodeEncodeError,
     QubesLocal.mkSocket
       (b "dom0" ++ [x00] ++ List.map byte_of (u "m") ++ [x00]
          ++ List.map byte_of (u "w") ++ [x00]) false).
Proof.
  destruct (local_non_ascii_field (fun _ => b "0") (fun r => Ok r)
              (u "w") (u "m") (Some [233]) (Some (b "x"))) as (_ & _ & H).
  apply (H [233]); reflexivity.
Defined.

(** ** The outcome of the remote transport *)

Lemma decode_utf8_Raise : forall n data e,
  (List.length data <= n)%nat ->
  decode_utf8 data = Raise e -> e = UnicodeDecodeError.
Proof.
  induction n as [|n IH]; intros data e Hlen;
    destruct data as [|x0 rest]; cbn [decode_utf8]; try discriminate;
    [cbn in Hlen; lia|].
  assert (Hrec : forall r (f : str -> Result str),
             (List.length r <= n)%nat ->
             rbind (decode_utf8 r) f = Raise e ->
             (forall t, f t <> Raise e) -> e = UnicodeDecodeError).
  { intros r f Hr Hb Hf. destruct (decode_utf8 r) as [t|e'] eqn:E;
      cbn [rbind] in Hb.
    - exfalso. exact (Hf t Hb).
    - injection Hb as <-. exact (IH r e' Hr E). }
  cbn [List.length] in Hlen.
  destruct (Byte.to_N x0 <? 128).
  { intro H. apply (Hrec rest _ ltac:(lia) H). discriminate. }
  destruct ((194 <=? Byte.to_N x0) && (Byte.to_N x0 <=? 223)).
  { destruct rest as [|x1 rest1]; [congruence|].
    destruct (cont_in 128 191 x1); [|congruence].
    cbn [List.length] in Hlen.
    intro H. apply (Hrec rest1 _ ltac:(lia) H). discriminate. }
  destruct ((224 <=? Byte.to_N x0) && (Byte.to_N x0 <=? 239)).
  { destruct rest as [|x1 [|x2 rest2]]; try congruence.
    cbv zeta.
    destruct (cont_in _ _ x1); [|congruence].
    destruct (cont_in 128 191 x2); [|congruence].
    cbn [List.length] in Hlen.
    intro H. apply (Hrec rest2 _ ltac:(lia) H). discriminate. }
  destruct ((240 <=? Byte.to_N x0) && (Byte.to_N x0 <=? 244)); [|congruence].
  destruct rest as [|x1 [|x2 [|x3 rest3]]]; try congruence.
  cbv zeta.
  destruct (cont_in _ _ x1); [|congruence].
  destruct (cont_in 128 191 x2); [|congruence].
  destruct (cont_in 128 191 x3); [|congruence].
  cbn [List.length] in Hlen.
  intro H. apply (Hrec rest3 _ ltac:(lia) H). discriminate.
Qed.

(** X17: the remote transport returns data only when the helper exits
    with code 0, and then what the response parser makes of its standard
    output, whatever its standard error holds.  With any other code it
    raises, whatever the standard output holds: when the standard error
    is valid UTF-8, [QubesException] with the format 'Service call
    error: %s' and the decoded text, which for ASCII bytes has exactly
    their characters; and [UnicodeDecodeError] when, and only when, the
    standard error is not valid UTF-8. *)
Theorem remote_exit_code_decides :
  forall (popen : list str -> option bytes -> QubesRemote.Process)
         (parse : bytes -> Result bytes)
         (dest method : str) (arg : option str) (payload : option bytes)
         (stdout stderr : bytes) (returncode : Z),
    popen [u "qrexec-client-vm"; dest;
           match arg with Some a => method ++ [PLUS] ++ a | None => method end]
          payload
    = QubesRemote.Exited stdout stderr returncode ->
    (returncode = 0%Z ->
     QubesRemote.qubesd_call popen parse dest method arg payload
     = parse stdout)
    /\ (returncode <> 0%Z ->
        QubesRemote.qubesd_call popen parse dest method arg payload
        = match decode_utf8 stderr with
          | Ok text =>
              Raise (QubesException (u "Service call error: %s") [text])
          | Raise _ => Raise UnicodeDecodeError
          end)
    /\ (forallb (fun x => Byte.to_N x <? 128) stderr = true ->
        decode_utf8 stderr = Ok (List.map Byte.to_N stderr)).
Proof.
  intros popen parse dest method arg payload stdout stderr rc Hp.
  unfold QubesRemote.qubesd_call. rewrite Hp. split; [|split].
  - intros ->. reflexivity.
  - intro Hrc. destruct (Z.eqb_spec rc 0) as [E|_]; [contradiction|].
    cbn [negb]. destruct (decode_utf8 stderr) as [text|e] eqn:Ed;
      cbn [rbind]; [reflexivity|].
    rewrite (decode_utf8_Raise _ stderr e (le_n _) Ed). reflexivity.
  - apply decode_utf8_ascii.
Qed.

Lemma remote_exit_code_decides_witness :
  QubesRemote.qubesd_call
    (fun _ _ => QubesRemote.Exited (b "0") [xff] 0%Z)
    (fun r => Ok r) (u "work") (u "mgmt.vm.List") None None
  = Ok (b "0")
  /\ QubesRemote.qubesd_call
       (fun _ _ => QubesRemote.Exited (b "0") [xc3; xa9] 1%Z)
       (fun r => Ok r) (u "work") (u "mgmt.vm.List") None None
     = Raise (QubesException (u "Service call error: %s") [[233]])
  /\ QubesRemote.qubesd_call
       (fun _ _ => QubesRemote.Exited (b "0") [xc3] 1%Z)
       (fun r => Ok r) (u "work") (u "mgmt.vm.List") None None
     = Raise UnicodeDecodeError.
Proof.
  split; [|split].
  - destruct (remote_exit_code_decides
                (fun _ _ => QubesRemote.Exited (b "0") [xff] 0%Z)
                (fun r => Ok r) (u "work") (u "mgmt.vm.List") None None
                (b "0") [xff] 0%Z eq_refl) as [H _].
    apply H. reflexivity.
  - destruct (remote_exit_code_decides
                (fun _ _ => QubesRemote.Exited (b "0") [xc3; xa9] 1%Z)
                (fun r => Ok r) (u "work") (u "mgmt.vm.List") None None
                (b "0") [xc3; xa9] 1%Z eq_refl) as (_ & H & _).
    rewrite H; [reflexivity|discriminate].
  - destruct (remote_exit_code_decides
                (fun _ _ => QubesRemote.Exited (b "0") [xc3] 1%Z)
                (fun r => Ok r) (u "work") (u "mgmt.vm.List") None None
                (b "0") [xc3] 1%Z eq_refl) as (_ & H & _).
    rewrite H; [reflexivity|discriminate].
Defined.

(** ** Options that cannot be encoded *)

Lemma encode_utf8_spec : forall s,
  (forallb encodable s = true /\ exists data, encode_utf8 s = Ok data)
  \/ (forallb encodable s = false
      /\ encode_utf8 s = Raise UnicodeEncodeError).
Proof.
  induction s as [|c s IH]; [left; split; [reflexivity|eexists; reflexivity]|].
  cbn [forallb encode_utf8].
  assert (Hc : (encodable c = true /\ exists bs, utf8_encode_char c = Some bs)
               \/ (encodable c = false /\ utf8_encode_char c = None)).
  { unfold encodable, utf8_encode_char.
    destruct (c <? 128) eqn:H1.
    - left. apply N.ltb_lt in H1.
      replace (c <? 1114112) with true by (symmetry; apply N.ltb_lt; lia).
      replace (55296 <=? c) with false by (symmetry; apply N.leb_gt; lia).
      split; [reflexivity|eauto].
    - destruct (c <? 2048) eqn:H2.
      + left. apply N.ltb_lt in H2.
        replace (c <? 1114112) with true by (symmetry; apply N.ltb_lt; lia).
        replace (55296 <=? c) with false by (symmetry; apply N.leb_gt; lia).
        split; [reflexivity|eauto].
      + destruct (c <? 65536) eqn:H3.
        * apply N.ltb_lt in H3.
          replace (c <? 1114112) with true by (symmetry; apply N.ltb_lt; lia).
          destruct ((55296 <=? c) && (c <=? 57343)); cbn [negb andb];
            [right|left]; split; eauto.
        * apply N.ltb_ge in H3.
          replace (c <=? 57343) with false by (symmetry; apply N.leb_gt; lia).
          rewrite andb_false_r. cbn [negb]. rewrite andb_true_r.
          destruct (c <? 1114112); [left|right]; split; eauto. }
  destruct Hc as [[Hc [bs Hbs]]|[Hc Hbs]]; rewrite Hc, Hbs; cbn [andb];
    [|right; split; reflexivity].
  destruct IH as [[H1 [data H2]]|[H1 H2]]; rewrite H1, H2; cbn [rbind];
    [left; split; [reflexivity|eauto]|right; split; reflexivity].
Qed.

Lemma forallb_concat_map : forall (A B : Type) (P : B -> bool)
                                  (f : A -> list B) (l : list A),
  forallb P (List.concat (List.map f l)) = forallb (fun x => forallb P (f x)) l.
Proof.
  induction l as [|x l IH]; [reflexivity|].
  cbn [List.map List.concat forallb]. rewrite forallb_app, IH. reflexivity.
Qed.

Lemma forallb_permutation : forall (A : Type) (P : A -> bool) (l l' : list A),
  Permutation l l' -> forallb P l = forallb P l'.
Proof.
  intros A P l l' H. induction H; cbn [forallb].
  - reflexivity.
  - rewrite IHPermutation. reflexivity.
  - destruct (P x), (P y); reflexivity.
  - congruence.
Qed.

(** The text of [add_pool] can be encoded exactly when the name and all
    the keys and values can. *)
Lemma add_pool_payload_encodable : forall name kwargs,
  forallb encodable (add_pool_payload name kwargs)
  = forallb encodable name
    && forallb (fun kv => forallb encodable (fst kv)
                          && forallb encodable (snd kv)) kwargs.
Proof.
  intros name kwargs. unfold add_pool_payload.
  rewrite !forallb_app, forallb_concat_map.
  rewrite (forallb_permutation _ _ _ _ (sorted_perm kwargs)).
  change (forallb encodable (u "name=")) with true.
  change (forallb encodable [LF]) with true.
  cbn [andb]. rewrite andb_true_r. f_equal.
  induction kwargs as [|[k v] kwargs IH]; [reflexivity|].
  cbn [forallb]. rewrite IH. unfold format_option. cbn [fst snd].
  rewrite !forallb_app. cbn [forallb].
  change (encodable EQUALS) with true. change (encodable LF) with true.
  cbn [andb]. rewrite !andb_true_r. reflexivity.
Qed.

(** X18: [add_pool] makes its call exactly when the name and every key
    and value of the options can be encoded in UTF-8 (no surrogate, no
    number above U+10FFFF).  It then makes this one call, returns
    nothing of the answer and raises what the dispatcher raises;
    otherwise it raises [UnicodeEncodeError] before any call. *)
Theorem add_pool_encodable :
  forall (daemon : list Call -> Call -> Result bytes)
         (name driver : str) (kwargs : list (str * str)) (s : State),
    (forallb encodable name
     && forallb (fun kv => forallb encodable (fst kv)
                           && forallb encodable (snd kv)) kwargs = true ->
     exists payload,
       encode_utf8 (add_pool_payload name kwargs) = Ok payload
       /\ add_pool daemon name driver kwargs s
          = (match daemon (calls s) (pool_add_call driver payload) with
             | Ok _ => Ok tt
             | Raise e => Raise e
             end,
             with_call (pool_add_call driver payload) s))
    /\ (forallb encodable name
        && forallb (fun kv => forallb encodable (fst kv)
                              && forallb encodable (snd kv)) kwargs = false ->
        add_pool daemon name driver kwargs s = (Raise UnicodeEncodeError, s)).
Proof.
  intros daemon name driver kwargs s.
  rewrite <- add_pool_payload_encodable.
  destruct (encode_utf8_spec (add_pool_payload name kwargs))
    as [[H1 [payload H2]]|[H1 H2]]; rewrite H1; split; try discriminate.
  - intros _. exists payload. split; [exact H2|].
    unfold add_pool, bind, lift. rewrite H2. unfold qubesd_call.
    fold (pool_add_call driver payload).
    destruct (daemon (calls s) (pool_add_call driver payload)); reflexivity.
  - intros _. unfold add_pool, bind, lift. rewrite H2. reflexivity.
Qed.

Lemma add_pool_encodable_witness :
  add_pool (fun _ _ => Ok []) (u "backup") (u "file")
    [(u "dir_path", [55296])] init
  = (Raise UnicodeEncodeError, init).
Proof.
  destruct (add_pool_encodable (fun _ _ => Ok []) (u "backup") (u "file")
              [(u "dir_path", [55296])] init) as [_ H].
  apply H. reflexivity.
Defined.

(** ** Invalidation, membership and names *)

(** X19: [clear_cache] followed by an unforced refresh and a forced
    refresh have the same outcome and make the same call; they leave the
    same state whenever the listing parses, also when the reconciliation
    then raises.  When the dispatcher or the parser raises they differ in
    the snapshot alone: the forced refresh keeps the old one, the other
    sequence leaves none. *)
Theorem clear_then_refresh_is_forced_refresh :
  forall (daemon : list Call -> Call -> Result bytes) (s : State),
    fst ((clear_cache ;; refresh_cache daemon false)%monad s)
    = fst (refresh_cache daemon true s)
    /\ (forall data vl,
          daemon (calls s) list_call = Ok data ->
          parse_vm_list data = Ok vl ->
          (clear_cache ;; refresh_cache daemon false)%monad s
          = refresh_cache daemon true s)
    /\ ((forall data, daemon (calls s) list_call = Ok data ->
                      exists e, parse_vm_list data = Raise e) ->
        snd ((clear_cache ;; refresh_cache daemon false)%monad s)
        = with_call list_call (set_vm_list None s)
        /\ snd (refresh_cache daemon true s) = with_call list_call s).
Proof.
  intros daemon s.
  unfold refresh_cache, clear_cache, bind, modify, get_state.
  cbn [negb _vm_list set_vm_list].
  unfold qubesd_call. fold list_call. cbn [calls set_vm_list].
  split; [|split].
  - destruct (daemon (calls s) list_call) as [data|e]; [|reflexivity].
    unfold lift. destruct (parse_vm_list data) as [vl|e]; reflexivity.
  - intros data vl Hcall Hparse. rewrite Hcall. unfold lift.
    rewrite Hparse. reflexivity.
  - intro Hfail. destruct (daemon (calls s) list_call) as [data|e];
      [|split; reflexivity].
    destruct (Hfail data eq_refl) as [e He]. unfold lift. rewrite He.
    split; reflexivity.
Qed.

Lemma clear_then_refresh_is_forced_refresh_witness :
  (clear_cache ;;
   refresh_cache (fun _ _ => Ok (b "work class=AppVM" ++ [x0a])) false)%monad
    (refreshed [(u "old", [(u "class", u "AppVM")])] init)
  = refresh_cache (fun _ _ => Ok (b "work class=AppVM" ++ [x0a])) true
      (refreshed [(u "old", [(u "class", u "AppVM")])] init).
Proof.
  destruct (clear_then_refresh_is_forced_refresh
              (fun _ _ => Ok (b "work class=AppVM" ++ [x0a]))
              (refreshed [(u "old", [(u "class", u "AppVM")])] init))
    as (_ & H & _).
  apply (H (b "work class=AppVM" ++ [x0a])
           [(u "work", [(u "class", u "AppVM")])]); reflexivity.
Defined.

(** X20: the membership test agrees with the names: when [keys()]
    returns, [item in collection] returns from the same state, and it is
    true exactly for the names that [keys()] lists. *)
Theorem contains_agrees_with_keys :
  forall (daemon : list Call -> Call -> Result bytes) (item : str)
         (s s1 : State) (names : list str),
    keys daemon s = (Ok names, s1) ->
    exists present,
      contains daemon item s = (Ok present, s1)
      /\ (present = true <-> In item names).
Proof.
  intros daemon item s s1 names. unfold keys, contains, bind, get_state.
  destruct (refresh_cache daemon false s) as [[[]|e] s0]; [|discriminate].
  destruct (_vm_list s0) as [l|]; [|discriminate].
  unfold ret. intros [= <- <-].
  exists (dict_contains item l). split; [reflexivity|].
  apply dict_contains_In.
Qed.

Lemma contains_agrees_with_keys_witness :
  exists present,
    contains (fun _ _ => Ok (b "work class=AppVM" ++ [x0a])) (u "work") init
    = (Ok present, refreshed [(u "work", [(u "class", u "AppVM")])] init)
    /\ (present = true <-> In (u "work") [u "work"]).
Proof.
  apply (contains_agrees_with_keys
           (fun _ _ => Ok (b "work class=AppVM" ++ [x0a])) (u "work") init
           (refreshed [(u "work", [(u "class", u "AppVM")])] init)
           [u "work"]).
  reflexivity.
Defined.
